(** * Detector lookup of the LSST camera (LsstCameraUtils.py)

    A shallow embedding of python/lsst/sims/coordUtils/LsstCameraUtils.py:
    the index builder [_build_lsst_pupil_coord_map], the exact resolver
    [_findDetectorsListLSST], the candidate filter and lookup
    [chipNameFromPupilCoordsLSST] and the sky-side entry points.

    Python floats are IEEE binary64 numbers: they are embedded as Rocq's
    primitive floats.  Python exceptions are embedded in the [result] type.
    The afw camera geometry (detectors, boxes, transforms) is external to the
    repository and enters through the [Camera] and [Sky] interfaces. *)

From Stdlib Require Import Floats.PrimFloat.
From stdpp Require Import base list strings sorting.

Local Set Warnings "-inexact-float".

(** ** Python values and exceptions *)

Inductive exn : Type :=
  | IndexError
  | KeyError (key : string)
  | ZeroDivisionError
  | RuntimeError (msg : string).

Inductive result (A : Type) : Type :=
  | Ok (a : A)
  | Raise (e : exn).
Arguments Ok {A} a.
Arguments Raise {A} e.

#[global] Instance result_ret : MRet result := fun A a => Ok a.
#[global] Instance result_bind : MBind result := fun A B f m =>
  match m with
  | Ok a => f a
  | Raise e => Raise e
  end.

(** [l[i]] on a Python list or numpy array: IndexError out of range
    (indices are never negative in this file). *)
Definition getitem {A} (l : list A) (i : nat) : result A :=
  match l !! i with
  | Some a => Ok a
  | None => Raise IndexError
  end.

(** [l[i] = v]: IndexError out of range. *)
Definition setitem {A} (l : list A) (i : nat) (v : A) : result (list A) :=
  if decide (i < length l) then Ok (<[i := v]> l) else Raise IndexError.

(** A left fold whose body may raise: a [for] loop over [l]. *)
Fixpoint for_each {A S} (body : S → A → result S) (l : list A) (s : S) : result S :=
  match l with
  | [] => Ok s
  | a :: l' => s' ← body s a; for_each body l' s'
  end.

(** A list comprehension whose element expression may raise. *)
Fixpoint traverse {A B} (f : A → result B) (l : list A) : result (list B) :=
  match l with
  | [] => Ok []
  | a :: l' => b ← f a; bs ← traverse f l'; Ok (b :: bs)
  end.

(** [arr[dexes]] for a numpy array [arr] and an array of indices. *)
Definition take_items {A} (arr : list A) (dexes : list nat) : result (list A) :=
  traverse (getitem arr) dexes.

(** [numpy.where(mask)[0]]: the indices at which [mask] is true. *)
Definition np_where (mask : list bool) : list nat :=
  filter (λ i, mask !! i = Some true) (seq 0 (length mask)).

(** An entry of [outputNameList]: [None], a chip name, or a list of names. *)
Inductive pyobj : Type :=
  | PyNone
  | PyStr (s : string)
  | PyList (l : list string).

#[global] Instance pyobj_eq_dec : EqDecision pyobj.
Proof. solve_decision. Defined.

(** [repr] of a chip name: the name between single quotes (chip names such
    as R:2,2 S:0,0 hold no quote, backslash or unprintable character). *)
Definition py_repr (s : string) : string := "'" +:+ s +:+ "'".

Fixpoint py_join (sep : string) (l : list string) : string :=
  match l with
  | [] => ""
  | [s] => s
  | s :: l' => s +:+ sep +:+ py_join sep l'
  end.

(** [str(name)] for a list of chip names. *)
Definition py_str_list (l : list string) : string :=
  "[" +:+ py_join ", " (py_repr <$> l) +:+ "]".

(** [if isinstance(name, list): outputNameList[ix] = str(name)], for every
    entry. *)
Definition stringify_entry (o : pyobj) : pyobj :=
  match o with
  | PyList l => PyStr (py_str_list l)
  | _ => o
  end.

Definition stringify (out : list pyobj) : list pyobj := stringify_entry <$> out.

(** afw.cameraGeom.DetectorType *)
Inductive DetectorType : Type := SCIENCE | FOCUS | GUIDER | WAVEFRONT.

#[global] Instance DetectorType_eq_dec : EqDecision DetectorType.
Proof. solve_decision. Defined.

(** How a loop body ends: it falls through, or the function returns. *)
Inductive flow (A : Type) : Type :=
  | Continue (a : A)
  | Return (a : A).
Arguments Continue {A} a.
Arguments Return {A} a.

Definition flow_val {A} (f : flow A) : A :=
  match f with Continue a | Return a => a end.

(** ** The camera geometry (afw) and numpy, as the code uses them *)

(** [afwGeom.Point2D(x, y)] *)
Record Point2D : Type := mkPoint2D { getX : float; getY : float }.

(** What the module takes from [lsst.afw.cameraGeom], [lsst.afw.geom],
    numpy and [lsst_camera()].  A detector is an opaque object compared by
    identity ([detector not in checked_detectors]). *)
Class Camera : Type := {
  Detector : Type;
  Box2D : Type;
  Detector_eq_dec :: EqDecision Detector;
  (** [detector.getName()], [detector.getType()], [detector.getBBox()] *)
  getName : Detector → string;
  getType : Detector → DetectorType;
  getBBox : Detector → Box2D;
  (** [Box2D()], [box.include(point)], [box.contains(point)] *)
  Box2D_new : Box2D;
  Box2D_include : Box2D → Point2D → Box2D;
  Box2D_contains : Box2D → Point2D → bool;
  (** [lsst_camera()._transformSingleSysArray(_, FIELD_ANGLE, native)], point
      by point *)
  transformSingleSys : Point2D → Point2D;
  (** [detector.getTransform(native, PIXELS).applyForward], point by point *)
  getTransform : Detector → Point2D → Point2D;
  (** [for chip in lsst_camera()] and [camera[name]] *)
  camera_chips : list Detector;
  camera_getitem : string → result Detector;
  (** [camera.getTransformMap().getTransform(FOCAL_PLANE, FIELD_ANGLE)] and
      [camera.getFpBBox().getCorners()] *)
  focal_to_field : Point2D → Point2D;
  getFpBBox_getCorners : list Point2D;
  (** [getCornerPixels(chip_name, camera)] and [pupilCoordsFromPixelCoords]
      for one pixel point on the chip of the given name (CameraUtils.py) *)
  getCornerPixels : string → list (float * float);
  pupilFromPixel : string → float * float → float * float;
  (** [np.power(x, 2)] and [np.array(l).sum()] *)
  np_power2 : float → float;
  np_sum : list float → float
}.

(** ** The exact resolver: [_findDetectorsListLSST] *)

(** One pass through the body guarded by
    [if detector not in checked_detectors]: the detector, [unfound_pts] as
    the early-exit test saw it, and [valid_pt_dexes], the points handed to
    the detector's transform (none when the transform was not applied). *)
Record visit `{Camera} : Type := mkVisit {
  v_detector : Detector;
  v_unfound : list nat;
  v_points : list nat
}.
Arguments mkVisit {_} _ _ _.

(** The local variables of the function.  [scanned] and [visits] are
    instrumentation: the points whose candidate row was scanned and the
    detector passes made, in order. *)
Record state `{Camera} : Type := mkState {
  outputNameList : list pyobj;
  chip_has_found : list Z;
  checked_detectors : list Detector;
  update_unfound : bool;
  unfound_pts : list nat;
  scanned : list nat;
  visits : list visit
}.
Arguments mkState {_} _ _ _ _ _ _ _.

(** [for i_pt, det_list in enumerate(detectorList):
       if len(det_list) == 0: chip_has_found[i_pt] = 1] *)
Fixpoint init_chip_has_found `{Camera} (i_pt : nat) (detectorList : list (list Detector))
    (chf : list Z) : result (list Z) :=
  match detectorList with
  | [] => Ok chf
  | det_list :: rest =>
      if decide (length det_list = 0)
      then chf' ← setitem chf i_pt 1%Z; init_chip_has_found (S i_pt) rest chf'
      else init_chip_has_found (S i_pt) rest chf
  end.

(** [for det in detectorList[ipt]: if det.getType() == WAVEFRONT: ...] *)
Definition has_wavefront `{Camera} (row : list Detector) : bool :=
  existsb (λ det, bool_decide (getType det = WAVEFRONT)) row.

Definition init_could_be_multiple `{Camera} (n : nat) (detectorList : list (list Detector))
    (allow_multiple_chips : bool) : result (list bool) :=
  if allow_multiple_chips then
    for_each (λ cbm ipt,
                row ← getitem detectorList ipt;
                if has_wavefront row then setitem cbm ipt true else Ok cbm)
             (seq 0 n) (replicate n false)
  else Ok (replicate n false).

(** [np.where(chip_has_found < 0)[0]] *)
Definition where_unfound `{Camera} (chf : list Z) : list nat :=
  np_where ((λ c, bool_decide (c < 0)%Z) <$> chf).

(** [[ii for ii in unfound_pts if detector in detectorList[ii]]] *)
Fixpoint valid_points `{Camera} (detectorList : list (list Detector)) (detector : Detector)
    (unfound : list nat) : result (list nat) :=
  match unfound with
  | [] => Ok []
  | ii :: rest =>
      row ← getitem detectorList ii;
      tl ← valid_points detectorList detector rest;
      Ok (if decide (detector ∈ row) then ii :: tl else tl)
  end.

(** The entry of a point that could be on several chips, after one more
    chip was found to hold it: [None] becomes the name, a name becomes a
    list of two, a list is appended to. *)
Definition add_name (name : string) (cur : pyobj) : pyobj :=
  match cur with
  | PyNone => PyStr name
  | PyList l => PyList (l ++ [name])
  | PyStr s => PyList [s; name]
  end.

(** The body of [if box.contains(pt):] for the point of index [ix]. *)
Definition record_hit `{Camera} (could_be_multiple : list bool) (detector : Detector)
    (st : state) (ix : nat) : result state :=
  cbm ← getitem could_be_multiple ix;
  if negb cbm then
    out ← setitem (outputNameList st) ix (PyStr (getName detector));
    chf ← setitem (chip_has_found st) ix 1%Z;
    Ok (mkState out chf (checked_detectors st) true (unfound_pts st)
                (scanned st) (visits st))
  else
    cur ← getitem (outputNameList st) ix;
    out ← setitem (outputNameList st) ix (add_name (getName detector) cur);
    Ok (mkState out (chip_has_found st) (checked_detectors st)
                (update_unfound st) (unfound_pts st) (scanned st) (visits st)).

(** [for ix, pt in zip(valid_pt_dexes, detectorPointList):
       if box.contains(pt): ...] *)
Definition test_points `{Camera} (could_be_multiple : list bool) (detector : Detector)
    (box : Box2D) (st : state) (pairs : list (nat * Point2D)) : result state :=
  for_each (λ st '(ix, pt),
              if Box2D_contains box pt
              then record_hit could_be_multiple detector st ix
              else Ok st)
           pairs st.

Definition log_visit `{Camera} (st : state) (v : visit) : state :=
  mkState (outputNameList st) (chip_has_found st) (checked_detectors st)
          (update_unfound st) (unfound_pts st) (scanned st) (visits st ++ [v]).

(** The body of [if detector not in checked_detectors:]. *)
Definition visit_detector `{Camera} (detectorList : list (list Detector))
    (nativePointList : list Point2D) (could_be_multiple : list bool)
    (detector : Detector) (st : state) : result (flow state) :=
  let checked := checked_detectors st ++ [detector] in
  let unfound :=
    if update_unfound st then where_unfound (chip_has_found st)
    else unfound_pts st in
  let st1 := mkState (outputNameList st) (chip_has_found st) checked false
                     unfound (scanned st) (visits st) in
  if decide (length unfound = 0) then
    Ok (Return (mkState (stringify (outputNameList st)) (chip_has_found st)
                        checked false unfound (scanned st)
                        (visits st ++ [mkVisit detector unfound []])))
  else
    valid_pt_dexes ← valid_points detectorList detector unfound;
    if decide (0 < length valid_pt_dexes) then
      valid_pt_list ← take_items nativePointList valid_pt_dexes;
      let detectorPointList := getTransform detector <$> valid_pt_list in
      let box := getBBox detector in
      st2 ← test_points could_be_multiple detector box st1
               (zip valid_pt_dexes detectorPointList);
      Ok (Continue (log_visit st2 (mkVisit detector unfound valid_pt_dexes)))
    else
      Ok (Continue (log_visit st1 (mkVisit detector unfound valid_pt_dexes))).

(** [for detector in detectorList[ipt]:] *)
Fixpoint detector_loop `{Camera} (detectorList : list (list Detector))
    (nativePointList : list Point2D) (could_be_multiple : list bool)
    (row : list Detector) (st : state) : result (flow state) :=
  match row with
  | [] => Ok (Continue st)
  | detector :: rest =>
      if decide (detector ∈ checked_detectors st)
      then detector_loop detectorList nativePointList could_be_multiple rest st
      else
        r ← visit_detector detectorList nativePointList could_be_multiple
              detector st;
        match r with
        | Continue st' =>
            detector_loop detectorList nativePointList could_be_multiple rest st'
        | Return st' => Ok (Return st')
        end
  end.

Definition log_scan `{Camera} (st : state) (ipt : nat) : state :=
  mkState (outputNameList st) (chip_has_found st) (checked_detectors st)
          (update_unfound st) (unfound_pts st) (scanned st ++ [ipt]) (visits st).

(** [for ipt, nativePoint in enumerate(nativePointList):] *)
Fixpoint point_loop `{Camera} (detectorList : list (list Detector))
    (nativePointList : list Point2D) (could_be_multiple : list bool)
    (ipts : list nat) (st : state) : result (flow state) :=
  match ipts with
  | [] => Ok (Continue st)
  | ipt :: rest =>
      c ← getitem (chip_has_found st) ipt;
      if bool_decide (c < 0)%Z then
        row ← getitem detectorList ipt;
        r ← detector_loop detectorList nativePointList could_be_multiple row
              (log_scan st ipt);
        match r with
        | Continue st' =>
            point_loop detectorList nativePointList could_be_multiple rest st'
        | Return st' => Ok (Return st')
        end
      else point_loop detectorList nativePointList could_be_multiple rest st
  end.

(** The function with its final local state: [Return] when it left through
    the early exit inside the loops, [Continue] when it reached the final
    [return]; [outputNameList] is the returned array on both paths. *)
Definition findDetectorsListLSST_run `{Camera} (pupilPointList : list Point2D)
    (detectorList : list (list Detector)) (allow_multiple_chips : bool)
    : result (flow state) :=
  let n := length pupilPointList in
  let nativePointList := transformSingleSys <$> pupilPointList in
  chf ← init_chip_has_found 0 detectorList (replicate n (-1)%Z);
  could_be_multiple ← init_could_be_multiple n detectorList allow_multiple_chips;
  r ← point_loop detectorList nativePointList could_be_multiple
        (seq 0 (length nativePointList))
        (mkState (replicate n PyNone) chf [] true [] [] []);
  match r with
  | Return st => Ok (Return st)
  | Continue st =>
      Ok (Continue (mkState (stringify (outputNameList st)) (chip_has_found st)
                            (checked_detectors st) (update_unfound st)
                            (unfound_pts st) (scanned st) (visits st)))
  end.

Definition _findDetectorsListLSST `{Camera} (pupilPointList : list Point2D)
    (detectorList : list (list Detector)) (allow_multiple_chips : bool)
    : result (list pyobj) :=
  r ← findDetectorsListLSST_run pupilPointList detectorList allow_multiple_chips;
  Ok (outputNameList (flow_val r)).


(** ** The camera: [lsst_camera] *)

(** The attribute [_lsst_camera] the function keeps on itself, and the number
    of [LsstSimMapper()] built so far. *)
Record camera_store (C : Type) : Type := mkStore {
  _lsst_camera : option C;
  mappers_built : nat
}.
Arguments mkStore {C} _ _.
Arguments _lsst_camera {C} _.
Arguments mappers_built {C} _.

(** [mapper_camera n] is the [camera] of the mapper built after [n] others:
    two mappers need not hand out the same object. *)
Definition lsst_camera {C} (mapper_camera : nat → C) (s : camera_store C)
    : camera_store C * C :=
  match _lsst_camera s with
  | Some c => (s, c)
  | None =>
      let c := mapper_camera (mappers_built s) in
      (mkStore (Some c) (S (mappers_built s)), c)
  end.

(** [n] calls of [lsst_camera()] one after the other, with what they return. *)
Fixpoint lsst_camera_calls {C} (mapper_camera : nat → C) (n : nat)
    (s : camera_store C) : camera_store C * list C :=
  match n with
  | 0 => (s, [])
  | S n' =>
      let '(s1, c) := lsst_camera mapper_camera s in
      let '(s2, cs) := lsst_camera_calls mapper_camera n' s1 in
      (s2, c :: cs)
  end.

(** ** The index builder: [_build_lsst_pupil_coord_map] *)

(** The dict returned by the builder, with its keys name, xx, yy and dp. *)
Record pupil_coord_map : Type := mkPupilMap {
  map_name : list string;
  map_xx : list float;
  map_yy : list float;
  map_dp : list float
}.

(** The three lists filled by the loop over the chips and their corners. *)
Definition x_pix_list `{Camera} : list float :=
  chip ← camera_chips; corner ← getCornerPixels (getName chip); [corner.1].

Definition y_pix_list `{Camera} : list float :=
  chip ← camera_chips; corner ← getCornerPixels (getName chip); [corner.2].

Definition name_list `{Camera} : list string :=
  chip ← camera_chips; _ ← getCornerPixels (getName chip); [getName chip].

(** Modelled from the spec: [pupilCoordsFromPixelCoords] of CameraUtils.py,
    which is not among the sources: every pixel point is mapped into the
    pupil frame by the transform of the chip named at its position. *)
Definition pupilCoordsFromPixelCoords `{Camera} (xPix yPix : list float)
    (chipName : list string) : list float * list float :=
  let pup := zip_with pupilFromPixel chipName (zip xPix yPix) in
  (pup.*1, pup.*2).

Definition fsum4 (a b c d : float) : float := (a + b + c + d)%float.

(** The body of [for ix_ct in range(n_chips):]. *)
Definition build_entry `{Camera} (names : list string) (x_pup_list y_pup_list : list float)
    (ix_ct : nat) : result (string * float * float * float) :=
  let ix := ix_ct * 4 in
  chip_name ← getitem names ix;
  x0 ← getitem x_pup_list ix;
  x1 ← getitem x_pup_list (ix + 1);
  x2 ← getitem x_pup_list (ix + 2);
  x3 ← getitem x_pup_list (ix + 3);
  let xx := (0.25 * fsum4 x0 x1 x2 x3)%float in
  y0 ← getitem y_pup_list ix;
  y1 ← getitem y_pup_list (ix + 1);
  y2 ← getitem y_pup_list (ix + 2);
  y3 ← getitem y_pup_list (ix + 3);
  let yy := (0.25 * fsum4 y0 y1 y2 y3)%float in
  dists ← traverse (λ ii,
                      xi ← getitem x_pup_list (ix + ii);
                      yi ← getitem y_pup_list (ix + ii);
                      Ok (PrimFloat.sqrt (np_power2 (xx - xi) + np_power2 (yy - yi)))%float)
                   (seq 0 4);
  let dx := (0.25 * np_sum dists)%float in
  Ok (chip_name, xx, yy, dx).

Definition _build_lsst_pupil_coord_map `{Camera} : result pupil_coord_map :=
  let n_chips := length camera_chips in
  let '(x_pup_list, y_pup_list) :=
    pupilCoordsFromPixelCoords x_pix_list y_pix_list name_list in
  entries ← traverse (build_entry name_list x_pup_list y_pup_list) (seq 0 n_chips);
  Ok (mkPupilMap (entries.*1.*1.*1) (entries.*1.*1.*2) (entries.*1.*2) (entries.*2)).

(** ** The candidate filter and lookup: [chipNameFromPupilCoordsLSST] *)

(** The attributes the function caches on itself.  The code sets them one
    after the other and rebuilds all three unless the first two are set and
    [_detector_arr] is not empty, so the three are present together. *)
Record lookup_attrs `{Camera} : Type := mkAttrs {
  _pupil_map : pupil_coord_map;
  _detector_arr : list Detector;
  _camera_bbox : Box2D
}.
Arguments mkAttrs {_} _ _ _.

Definition build_attrs `{Camera} : result lookup_attrs :=
  pupil_map ← _build_lsst_pupil_coord_map;
  detector_arr ← traverse camera_getitem (map_name pupil_map);
  let pupil_corners := focal_to_field <$> getFpBBox_getCorners in
  let camera_bbox := foldl Box2D_include Box2D_new pupil_corners in
  Ok (mkAttrs pupil_map detector_arr camera_bbox).

(** The body of the first [if] of the function. *)
Definition ensure_attrs `{Camera} (attrs : option lookup_attrs) : result lookup_attrs :=
  match attrs with
  | Some a => if decide (length (_detector_arr a) = 0) then build_attrs else Ok a
  | None => build_attrs
  end.

(** A coordinate argument: a number or a numpy array. *)
Inductive pyarg : Type :=
  | Scalar (x : float)
  | Array (l : list float).

Definition is_array (a : pyarg) : bool :=
  match a with Array _ => true | Scalar _ => false end.

Definition same_shape (first a : pyarg) : bool :=
  match first, a with
  | Scalar _, Scalar _ => true
  | Array l0, Array l => bool_decide (length l = length l0)
  | _, _ => false
  end.

(** Modelled from the spec: [_validate_inputs] of lsst.sims.utils, which is
    not among the sources: numbers are accepted (the answer is False),
    arrays of one length are accepted (True), anything else fails with an
    error naming the mismatched parameters. *)
Definition _validate_inputs (input_list : list pyarg) (input_names : list string)
    (method_name : string) : result bool :=
  match input_list with
  | [] => Raise IndexError
  | first :: _ =>
      let bad := (filter (λ p, same_shape first p.1 = false)
                         (zip input_list input_names)).*2 in
      if decide (bad = []) then Ok (is_array first)
      else Raise (RuntimeError (method_name +:+ ": mismatched " +:+ py_join ", " bad))
  end.

(** [if not are_arrays: x = np.array([x])] *)
Definition wrap_scalar (are_arrays : bool) (a : pyarg) : pyarg :=
  if are_arrays then a
  else match a with Scalar x => Array [x] | Array l => Array l end.

(** The items of an array argument (validation has made [are_arrays] agree
    with the shape of the arguments). *)
Definition items (a : pyarg) : list float :=
  match a with Array l => l | Scalar x => [x] end.

Definition fsquare (x : float) : float := (x * x)%float.

(** [rrsq_lim = (1.1*_pupil_map['dp'])**2] *)
Definition rrsq_lim (dp : list float) : list float :=
  (λ r, fsquare (1.1 * r)) <$> dp.

(** [((xx-x_cam)**2 + (yy-y_cam)**2)]; the arrays are those of one pupil map
    and have its length. *)
Definition dist_sq (x_cam y_cam : list float) (xx yy : float) : list float :=
  zip_with (λ xc yc, (fsquare (xx - xc) + fsquare (yy - yc))%float) x_cam y_cam.

(** [np.where(((xx-x_cam)**2 + (yy-y_cam)**2) < rrsq_lim)] *)
Definition possible_dexes (m : pupil_coord_map) (xx yy : float) : list nat :=
  np_where (zip_with PrimFloat.ltb (dist_sq (map_xx m) (map_yy m) xx yy) (rrsq_lim (map_dp m))).

(** The loop that fills [is_okay]. *)
Definition is_okay_of `{Camera} (camera_bbox : Box2D) (pupilPointList : list Point2D)
    : list bool :=
  Box2D_contains camera_bbox <$> pupilPointList.

(** The body of the loop that fills [valid_detectors]. *)
Definition valid_detectors_row `{Camera} (attrs : lookup_attrs) (is_okay : list bool)
    (i_pp : nat) (xy : float * float) : result (list Detector) :=
  ok ← getitem is_okay i_pp;
  if negb ok then Ok []
  else take_items (_detector_arr attrs) (possible_dexes (_pupil_map attrs) xy.1 xy.2).

Definition valid_detectors_of `{Camera} (attrs : lookup_attrs) (is_okay : list bool)
    (xs ys : list float) : result (list (list Detector)) :=
  traverse (λ p, valid_detectors_row attrs is_okay p.1 p.2)
           (imap pair (zip xs ys)).

(** The function after its cache is in place, with the final local state of
    the resolver.  The closing timing report divides by
    [float(len(xPupil))]. *)
Definition lookup_body `{Camera} (attrs : lookup_attrs) (xPupil yPupil : pyarg)
    (allow_multiple_chips : bool) : result (flow state) :=
  are_arrays ← _validate_inputs [xPupil; yPupil] ["xPupil"; "yPupil"]
                  "chipNameFromPupilCoordsLSST";
  let xs := items (wrap_scalar are_arrays xPupil) in
  let ys := items (wrap_scalar are_arrays yPupil) in
  let pupilPointList := zip_with mkPoint2D xs ys in
  let is_okay := is_okay_of (_camera_bbox attrs) pupilPointList in
  valid_detectors ← valid_detectors_of attrs is_okay xs ys;
  r ← findDetectorsListLSST_run pupilPointList valid_detectors allow_multiple_chips;
  if decide (length xs = 0) then Raise ZeroDivisionError else Ok r.

Definition chipNameFromPupilCoordsLSST_run `{Camera} (attrs : option lookup_attrs)
    (xPupil yPupil : pyarg) (allow_multiple_chips : bool)
    : option lookup_attrs * result (flow state) :=
  match ensure_attrs attrs with
  | Raise e => (attrs, Raise e)
  | Ok a => (Some a, lookup_body a xPupil yPupil allow_multiple_chips)
  end.

(** ** The sky-side entry points *)

(** The fields of [ObservationMetaData] this module reads, and the pointing. *)
Record ObservationMetaData : Type := mkObs {
  mjd : option float;
  rotSkyPos : option float;
  pointingRA : option float;
  pointingDec : option float
}.

(** The [chipName] argument: None, one name, or an array of names. *)
Inductive chipname_arg : Type :=
  | NoChipName
  | OneChipName (s : string)
  | ChipNames (l : list pyobj).

(** What the entry points take from [lsst.sims.utils] and from CameraUtils.py
    (neither is among the sources). *)
Class Sky : Type := {
  PixelCoords : Type;
  (** [_pupilCoordsFromRaDec(ra, dec, pm_ra, pm_dec, parallax, v_rad,
      obs_metadata, epoch)] *)
  _pupilCoordsFromRaDec :
    pyarg → pyarg → option pyarg → option pyarg → option pyarg → option pyarg →
    ObservationMetaData → float → result (pyarg * pyarg);
  (** [pixelCoordsFromPupilCoords(xPupil, yPupil, chipName, camera,
      includeDistortion)] with [camera=lsst_camera()] *)
  pixelCoordsFromPupilCoords :
    pyarg → pyarg → list pyobj → bool → result PixelCoords;
  _validate_inputs_and_chipname :
    list pyarg → list string → string → chipname_arg →
    result (bool * option (list pyobj));
  radiansFromArcsec : pyarg → pyarg;
  np_radians : pyarg → pyarg
}.

(** Calls that leave this module's own argument checks behind. *)
Inductive event : Type :=
  | CallPupilCoordsFromRaDec
  | CallChipNameFromPupilCoordsLSST
  | CallPixelCoordsFromPupilCoords.

(** The state a call runs in: the attributes cached on
    [chipNameFromPupilCoordsLSST] and the calls made so far. *)
Record world `{Camera} : Type := mkWorld {
  w_attrs : option lookup_attrs;
  w_calls : list event
}.
Arguments mkWorld {_} _ _.

(** Computations that read and write the world and may raise. *)
Definition py `{Camera} (A : Type) : Type := world → world * result A.

#[global] Instance py_ret `{Camera} : MRet py := λ A a w, (w, Ok a).
#[global] Instance py_bind `{Camera} : MBind py := λ A B f m w,
  match m w with
  | (w', Ok a) => f a w'
  | (w', Raise e) => (w', Raise e)
  end.

Definition raise `{Camera} {A} (e : exn) : py A := λ w, (w, Raise e).
Definition lift `{Camera} {A} (r : result A) : py A := λ w, (w, r).
Definition call `{Camera} (ev : event) : py unit :=
  λ w, (mkWorld (w_attrs w) (w_calls w ++ [ev]), Ok tt).

Definition chipNameFromPupilCoordsLSST `{Camera} (xPupil yPupil : pyarg)
    (allow_multiple_chips : bool) : py (list pyobj) :=
  λ w,
    let '(attrs, r) :=
      chipNameFromPupilCoordsLSST_run (w_attrs w) xPupil yPupil allow_multiple_chips in
    (mkWorld attrs (w_calls w ++ [CallChipNameFromPupilCoordsLSST]),
     f ← r; Ok (outputNameList (flow_val f))).

(** The value returned by the chip-name lookups on the sky: one entry or an
    array of entries. *)
Inductive chipname_ret : Type :=
  | OneEntry (o : pyobj)
  | Entries (l : list pyobj).

(** The four checks of [_chipNameFromRaDecLSST], in the order of the code;
    they give back the epoch and the metadata they found. *)
Definition check_chipName `{Camera} (obs_metadata : option ObservationMetaData)
    (epoch : option float) : py (float * ObservationMetaData) :=
  match epoch with
  | None => raise (RuntimeError "You need to pass an epoch into chipName")
  | Some ep =>
  match obs_metadata with
  | None =>
      raise (RuntimeError "You need to pass an ObservationMetaData into chipName")
  | Some obs =>
  match mjd obs with
  | None =>
      raise (RuntimeError
               "You need to pass an ObservationMetaData with an mjd into chipName")
  | Some _ =>
  match rotSkyPos obs with
  | None =>
      raise (RuntimeError
               "You need to pass an ObservationMetaData with a rotSkyPos into chipName")
  | Some _ => mret (ep, obs)
  end end end end.

Definition _chipNameFromRaDecLSST `{Camera} `{Sky} (ra dec : pyarg)
    (pm_ra pm_dec parallax v_rad : option pyarg)
    (obs_metadata : option ObservationMetaData) (epoch : option float)
    (allow_multiple_chips : bool) : py chipname_ret :=
  are_arrays ← lift (_validate_inputs [ra; dec] ["ra"; "dec"] "chipNameFromRaDecLSST");
  '(ep, obs) ← check_chipName obs_metadata epoch;
  let ra := wrap_scalar are_arrays ra in
  let dec := wrap_scalar are_arrays dec in
  _ ← call CallPupilCoordsFromRaDec;
  '(xp, yp) ← lift (_pupilCoordsFromRaDec ra dec pm_ra pm_dec parallax v_rad obs ep);
  ans ← chipNameFromPupilCoordsLSST xp yp allow_multiple_chips;
  if negb are_arrays then o ← lift (getitem ans 0); mret (OneEntry o)
  else mret (Entries ans).

(** [x_out = radiansFromArcsec(x) if x is not None else None] *)
Definition arcsec_opt `{Sky} (x : option pyarg) : option pyarg :=
  match x with
  | Some v => Some (radiansFromArcsec v)
  | None => None
  end.

Definition chipNameFromRaDecLSST `{Camera} `{Sky} (ra dec : pyarg)
    (pm_ra pm_dec parallax v_rad : option pyarg)
    (obs_metadata : option ObservationMetaData) (epoch : option float)
    (allow_multiple_chips : bool) : py chipname_ret :=
  let pm_ra_out := arcsec_opt pm_ra in
  let pm_dec_out := arcsec_opt pm_dec in
  let parallax_out := arcsec_opt parallax in
  _chipNameFromRaDecLSST (np_radians ra) (np_radians dec) pm_ra_out pm_dec_out
    parallax_out v_rad obs_metadata epoch allow_multiple_chips.

(** The four checks of [_pixelCoordsFromRaDecLSST]. *)
Definition check_pixelCoords `{Camera} (obs_metadata : option ObservationMetaData)
    (epoch : option float) : py (float * ObservationMetaData) :=
  match epoch with
  | None => raise (RuntimeError "You need to pass an epoch into pixelCoordsFromRaDec")
  | Some ep =>
  match obs_metadata with
  | None =>
      raise (RuntimeError
               "You need to pass an ObservationMetaData into pixelCoordsFromRaDec")
  | Some obs =>
  match mjd obs with
  | None =>
      raise (RuntimeError
               ("You need to pass an ObservationMetaData with an mjd into "
                +:+ "pixelCoordsFromRaDec"))
  | Some _ =>
  match rotSkyPos obs with
  | None =>
      raise (RuntimeError
               ("You need to pass an ObservationMetaData with a rotSkyPos into "
                +:+ "pixelCoordsFromRaDec"))
  | Some _ => mret (ep, obs)
  end end end end.

Definition _pixelCoordsFromRaDecLSST `{Camera} `{Sky} (ra dec : pyarg)
    (pm_ra pm_dec parallax v_rad : option pyarg)
    (obs_metadata : option ObservationMetaData) (chipName : chipname_arg)
    (epoch : option float) (includeDistortion : bool) : py PixelCoords :=
  '(are_arrays, chipNameList) ←
    lift (_validate_inputs_and_chipname [ra; dec] ["ra"; "dec"]
            "pixelCoordsFromRaDecLSST" chipName);
  '(ep, obs) ← check_pixelCoords obs_metadata epoch;
  _ ← call CallPupilCoordsFromRaDec;
  '(xPupil, yPupil) ←
    lift (_pupilCoordsFromRaDec ra dec pm_ra pm_dec parallax v_rad obs ep);
  chipNameList ← match chipNameList with
                 | None => chipNameFromPupilCoordsLSST xPupil yPupil false
                 | Some l => mret l
                 end;
  _ ← call CallPixelCoordsFromPupilCoords;
  lift (pixelCoordsFromPupilCoords xPupil yPupil chipNameList includeDistortion).

Definition pixelCoordsFromRaDecLSST `{Camera} `{Sky} (ra dec : pyarg)
    (pm_ra pm_dec parallax v_rad : option pyarg)
    (obs_metadata : option ObservationMetaData) (chipName : chipname_arg)
    (epoch : option float) (includeDistortion : bool) : py PixelCoords :=
  let pm_ra_out := arcsec_opt pm_ra in
  let pm_dec_out := arcsec_opt pm_dec in
  let parallax_out := arcsec_opt parallax in
  _pixelCoordsFromRaDecLSST (np_radians ra) (np_radians dec) pm_ra_out pm_dec_out
    parallax_out v_rad obs_metadata chipName (Some 2000.0%float) includeDistortion.

(** ** A small camera to run the code on *)

Module Toy.

(** Seven chips on a plane whose pixel frames are the pupil frame itself:
    D0 is the square (0,0)-(10,10); the wavefront sensors W0 and W1 overlap,
    and so do A and B. *)
Inductive chip : Type := D0 | W0 | W1 | A | B | X | Y.

#[global] Instance chip_eq_dec : EqDecision chip.
Proof. solve_decision. Defined.

(** A box by its corners (xmin, ymin, xmax, ymax); [None] is the empty box. *)
Definition box : Type := option (float * float * float * float).

Definition chip_name (c : chip) : string :=
  match c with
  | D0 => "D0" | W0 => "W0" | W1 => "W1"
  | A => "A" | B => "B" | X => "X" | Y => "Y"
  end.

Definition chip_type (c : chip) : DetectorType :=
  match c with
  | W0 | W1 => WAVEFRONT
  | _ => SCIENCE
  end.

Definition chip_box (c : chip) : float * float * float * float :=
  match c with
  | D0 => (0, 0, 10, 10)
  | W0 => (20, 0, 30, 10)
  | W1 => (25, 0, 35, 10)
  | A => (0, 20, 10, 30)
  | B => (5, 20, 15, 30)
  | X => (40, 20, 50, 30)
  | Y => (60, 20, 70, 30)
  end%float.

Definition chips : list chip := [D0; W0; W1; A; B; X; Y].

Definition fmin (a b : float) : float := if PrimFloat.ltb b a then b else a.
Definition fmax (a b : float) : float := if PrimFloat.ltb a b then b else a.

Definition box_include (b : box) (p : Point2D) : box :=
  match b with
  | None => Some (getX p, getY p, getX p, getY p)
  | Some (x0, y0, x1, y1) =>
      Some (fmin x0 (getX p), fmin y0 (getY p), fmax x1 (getX p), fmax y1 (getY p))
  end.

(** Closed-interval containment. *)
Definition box_contains (b : box) (p : Point2D) : bool :=
  match b with
  | None => false
  | Some (x0, y0, x1, y1) =>
      PrimFloat.leb x0 (getX p) && PrimFloat.leb (getX p) x1 &&
      PrimFloat.leb y0 (getY p) && PrimFloat.leb (getY p) y1
  end.

Definition chip_of_name (name : string) : result chip :=
  match find (λ c, bool_decide (chip_name c = name)) chips with
  | Some c => Ok c
  | None => Raise (KeyError name)
  end.

Definition corner_pixels (name : string) : list (float * float) :=
  match chip_of_name name with
  | Ok c => let '(x0, y0, x1, y1) := chip_box c in
            [(x0, y0); (x0, y1); (x1, y0); (x1, y1)]
  | Raise _ => []
  end.

#[global] Instance camera : Camera := {|
  Detector := chip;
  Box2D := box;
  getName := chip_name;
  getType := chip_type;
  getBBox := λ c, Some (chip_box c);
  Box2D_new := None;
  Box2D_include := box_include;
  Box2D_contains := box_contains;
  transformSingleSys := λ p, p;
  getTransform := λ _ p, p;
  camera_chips := chips;
  camera_getitem := chip_of_name;
  focal_to_field := λ p, p;
  getFpBBox_getCorners :=
    [mkPoint2D 0 0; mkPoint2D 0 30; mkPoint2D 70 0; mkPoint2D 70 30];
  getCornerPixels := corner_pixels;
  pupilFromPixel := λ _ xy, xy;
  np_power2 := λ x, (x * x)%float;
  np_sum := foldl PrimFloat.add 0%float
|}.

(** The sky is the pupil plane itself; pixel coordinates are not computed. *)
#[global] Instance sky : Sky := {|
  PixelCoords := list pyobj;
  _pupilCoordsFromRaDec := λ ra dec _ _ _ _ _ _, Ok (ra, dec);
  pixelCoordsFromPupilCoords := λ _ _ names _, Ok names;
  _validate_inputs_and_chipname := λ input_list input_names method_name chipName,
    are_arrays ← _validate_inputs input_list input_names method_name;
    Ok (are_arrays,
        match chipName with
        | NoChipName => None
        | OneChipName s => Some [PyStr s]
        | ChipNames l => Some l
        end);
  radiansFromArcsec := λ a, a;
  np_radians := λ a, a
|}.

(** The same chips when the camera reports only three corners of each. *)
Definition short_camera : Camera := {|
  Detector := chip;
  Box2D := box;
  getName := chip_name;
  getType := chip_type;
  getBBox := λ c, Some (chip_box c);
  Box2D_new := None;
  Box2D_include := box_include;
  Box2D_contains := box_contains;
  transformSingleSys := λ p, p;
  getTransform := λ _ p, p;
  camera_chips := chips;
  camera_getitem := chip_of_name;
  focal_to_field := λ p, p;
  getFpBBox_getCorners :=
    [mkPoint2D 0 0; mkPoint2D 0 30; mkPoint2D 70 0; mkPoint2D 70 30];
  getCornerPixels := λ name, take 3 (corner_pixels name);
  pupilFromPixel := λ _ xy, xy;
  np_power2 := λ x, (x * x)%float;
  np_sum := foldl PrimFloat.add 0%float
|}.

Definition pt (x y : float) : Point2D := mkPoint2D x y.

Definition obs : ObservationMetaData :=
  mkObs (Some 59580.0%float) (Some 0%float) (Some 0%float) (Some 0%float).

Definition w0 : world := mkWorld None [].

End Toy.

(** ** What the claims speak of *)

(** Exact containment: the point, taken to the camera's native frame and
    then to the detector's pixel frame, lies in the detector's box. *)
Definition contains_point `{Camera} (d : Detector) (p : Point2D) : bool :=
  Box2D_contains (getBBox d) (getTransform d (transformSingleSys p)).

(** The point of index [i] lies on detector [d]. *)
Definition on_chip `{Camera} (pts : list Point2D) (d : Detector) (i : nat) : bool :=
  match pts !! i with
  | Some p => contains_point d p
  | None => false
  end.

(** The candidate row of the point of index [i]. *)
Definition row_of `{Camera} (dl : list (list Detector)) (i : nat) : list Detector :=
  default [] (dl !! i).

(** A point is multi-eligible when several chips are allowed and one of its
    candidates is a wavefront sensor. *)
Definition multi_eligible `{Camera} (allow : bool) (dl : list (list Detector))
    (i : nat) : bool :=
  allow && has_wavefront (row_of dl i).

(** The detectors of [order] that are candidates of point [i] and contain
    it, in the order of [order]. *)
Definition hits `{Camera} (pts : list Point2D) (dl : list (list Detector))
    (order : list Detector) (i : nat) : list Detector :=
  filter (λ d, d ∈ row_of dl i ∧ on_chip pts d i = true) order.

(** The entry a point holds once it was found on the chips of the given
    names, in that order. *)
Definition entry_of (multi : bool) (names : list string) : pyobj :=
  if multi then
    match names with
    | [] => PyNone
    | [a] => PyStr a
    | _ => PyList names
    end
  else
    match names with
    | [] => PyNone
    | a :: _ => PyStr a
    end.

(** A point needs no further search: it has no candidate, or it is not
    multi-eligible and was found on a chip of [order]. *)
Definition resolved_at `{Camera} (pts : list Point2D) (dl : list (list Detector))
    (allow : bool) (order : list Detector) (i : nat) : bool :=
  bool_decide (row_of dl i = []) ||
  (negb (multi_eligible allow dl i) && bool_decide (hits pts dl order i ≠ [])).

Definition found_flag (b : bool) : Z := if b then 1%Z else (-1)%Z.

(** [chip_has_found] as the first loop of the resolver leaves it. *)
Definition chf0 `{Camera} (dl : list (list Detector)) : list Z :=
  (λ row, found_flag (bool_decide (row = []))) <$> dl.

(** The exhaustive test the resolver is compared with: one point against
    every detector of the list [dets], one after the other. *)
Definition exhaustive_point `{Camera} (allow : bool) (p : Point2D)
    (dets : list Detector) : pyobj :=
  stringify_entry
    (entry_of (allow && has_wavefront dets)
              (getName <$> filter (λ d, contains_point d p = true) dets)).

Definition exhaustive `{Camera} (allow : bool) (pts : list Point2D)
    (dl : list (list Detector)) : list pyobj :=
  zip_with (exhaustive_point allow) pts dl.

(** The distinct detectors of a list in the order they are first met. *)
Definition see `{Camera} (acc : list Detector) (d : Detector) : list Detector :=
  if decide (d ∈ acc) then acc else acc ++ [d].

Definition first_seen_from `{Camera} (acc l : list Detector) : list Detector :=
  foldl see acc l.

Definition first_seen `{Camera} (l : list Detector) : list Detector :=
  first_seen_from [] l.

(** The state of the resolver between two detector passes, for the points
    [pts] with the candidate rows [dl]; [g] is the identity while the loops
    run and [stringify_entry] once the function has returned. *)
Record resolver_inv `{Camera} (pts : list Point2D) (dl : list (list Detector))
    (allow : bool) (g : pyobj → pyobj) (st : state) : Prop := {
  inv_len_out : length (outputNameList st) = length pts;
  inv_len_chf : length (chip_has_found st) = length pts;
  inv_nodup : NoDup (checked_detectors st);
  inv_unfound :
    update_unfound st = false →
    unfound_pts st = where_unfound (chip_has_found st);
  inv_out : ∀ i, i < length pts →
    outputNameList st !! i =
    Some (g (entry_of (multi_eligible allow dl i)
                      (getName <$> hits pts dl (checked_detectors st) i)));
  inv_chf : ∀ i, i < length pts →
    chip_has_found st !! i =
    Some (found_flag (resolved_at pts dl allow (checked_detectors st) i))
}.

(** The record of the detector passes agrees with the state: the checked
    detectors are those of the passes, a pass handed to the transform the
    searched-for points that list the detector, and a searched-for point
    has a candidate. *)
Record trace_inv `{Camera} (pts : list Point2D) (dl : list (list Detector))
    (st : state) : Prop := {
  tr_checked : checked_detectors st = v_detector <$> visits st;
  tr_points : ∀ v, v ∈ visits st →
    v_points v = filter (λ i, v_detector v ∈ row_of dl i) (v_unfound v);
  tr_unfound : ∀ v i, v ∈ visits st → i ∈ v_unfound v →
    i < length pts ∧ row_of dl i ≠ []
}.

(** Every pass so far found some point still searched for. *)
Definition live `{Camera} (st : state) : Prop :=
  Forall (λ v, v_unfound v ≠ []) (visits st).

(** The last pass found no point searched for and applied no transform;
    every pass before it found some. *)
Definition early_exit_trace `{Camera} (st : state) : Prop :=
  ∃ vs d, visits st = vs ++ [mkVisit d [] []] ∧
          Forall (λ v, v_unfound v ≠ []) vs.

(** The candidate rows of the scanned points, one after the other. *)
Definition scanned_rows `{Camera} (dl : list (list Detector)) (sc : list nat)
    : list Detector :=
  sc ≫= row_of dl.

(** Every candidate of a point below [k] that is still searched for has been
    checked. *)
Definition complete `{Camera} (pts : list Point2D) (dl : list (list Detector))
    (allow : bool) (k : nat) (st : state) : Prop :=
  ∀ i, i < k → resolved_at pts dl allow (checked_detectors st) i = false →
       row_of dl i ⊆ checked_detectors st.

(** The scanned points come in increasing order, lie below [k] and have a
    candidate. *)
Definition scan_ok `{Camera} (dl : list (list Detector)) (k : nat) (sc : list nat)
    : Prop :=
  StronglySorted lt sc ∧ Forall (λ i, i < k ∧ row_of dl i ≠ []) sc.

(** The points that the detectors [cd] leave to be searched for, in
    increasing order. *)
Definition unresolved `{Camera} (pts : list Point2D) (dl : list (list Detector))
    (allow : bool) (cd : list Detector) : list nat :=
  filter (λ i, resolved_at pts dl allow cd i = false) (seq 0 (length pts)).

(** Every pass saw as searched-for exactly the points that the detectors
    checked before it had left unresolved. *)
Definition unfound_exact `{Camera} (pts : list Point2D) (dl : list (list Detector))
    (allow : bool) (st : state) : Prop :=
  ∀ n v, visits st !! n = Some v →
    v_unfound v = unresolved pts dl allow (take n (checked_detectors st)).

(** The row of a point below [k] was scanned exactly when the detectors of
    the rows scanned before it had left the point unresolved. *)
Definition scan_exact `{Camera} (pts : list Point2D) (dl : list (list Detector))
    (allow : bool) (k : nat) (sc : list nat) : Prop :=
  ∀ i, i < k →
    (i ∈ sc ↔
     resolved_at pts dl allow
       (first_seen (scanned_rows dl (filter (λ j, j < i) sc))) i = false).

(** One step of the scan over the points: the detectors checked once the
    scan has passed point [k], from those checked before it.  The row of a
    resolved point is skipped, the new detectors of any other row are
    checked in the order of the row. *)
Definition scan_step `{Camera} (pts : list Point2D) (dl : list (list Detector))
    (allow : bool) (cd : list Detector) (k : nat) : list Detector :=
  if resolved_at pts dl allow cd k then cd else first_seen_from cd (row_of dl k).

(** The detectors in the order in which the scan over all the points checks
    them. *)
Definition resolver_order `{Camera} (pts : list Point2D) (dl : list (list Detector))
    (allow : bool) : list Detector :=
  foldl (scan_step pts dl allow) [] (seq 0 (length pts)).

(** The candidate row of a point in the order of the resolver: first its
    detectors that were checked, in the order in which they were checked,
    then the others. *)
Definition visit_order `{Camera} (checked row : list Detector) : list Detector :=
  filter (λ d, d ∈ row) checked ++ filter (λ d, d ∉ checked) row.

(** The four corners of a chip, mapped into the pupil frame. *)
Definition pupil_corners `{Camera} (c : Detector) : list (float * float) :=
  pupilFromPixel (getName c) <$> getCornerPixels (getName c).

(** The centroid of four points. *)
Definition centroid (corners : list (float * float)) : float * float :=
  match corners with
  | [p0; p1; p2; p3] =>
      ((0.25 * fsum4 p0.1 p1.1 p2.1 p3.1)%float,
       (0.25 * fsum4 p0.2 p1.2 p2.2 p3.2)%float)
  | _ => (nan, nan)
  end.

(** The mean Euclidean distance from a point to four points. *)
Definition mean_distance `{Camera} (center : float * float)
    (corners : list (float * float)) : float :=
  (0.25 * np_sum ((λ p, PrimFloat.sqrt (np_power2 (center.1 - p.1) +
                                        np_power2 (center.2 - p.2))) <$> corners))%float.

(** The entry of the index for one chip. *)
Definition index_entry `{Camera} (c : Detector) : string * float * float * float :=
  let center := centroid (pupil_corners c) in
  (getName c, center.1, center.2, mean_distance center (pupil_corners c)).

(** The camera hands out four corners for every chip and finds every chip
    under its name. *)
Definition camera_ok `{Camera} : Prop :=
  Forall (λ c, length (getCornerPixels (getName c)) = 4 ∧
               camera_getitem (getName c) = Ok c) camera_chips.

(** The cached arrays have one length. *)
Definition attrs_ok `{Camera} (a : lookup_attrs) : Prop :=
  length (map_xx (_pupil_map a)) = length (_detector_arr a) ∧
  length (map_yy (_pupil_map a)) = length (_detector_arr a) ∧
  length (map_dp (_pupil_map a)) = length (_detector_arr a).

(** The squared-distance test of the candidate filter for the detector of
    index [j]. *)
Definition within_radius (m : pupil_coord_map) (xx yy : float) (j : nat) : Prop :=
  ∃ xc yc r,
    map_xx m !! j = Some xc ∧ map_yy m !! j = Some yc ∧ map_dp m !! j = Some r ∧
    PrimFloat.ltb (fsquare (xx - xc) + fsquare (yy - yc)) (fsquare (1.1 * r)) = true.

(** The coordinates of a call, as arrays: a pair of numbers is wrapped. *)
Definition coords (xPupil a : pyarg) : list float :=
  items (wrap_scalar (is_array xPupil) a).

(** The required pieces of observation metadata, in the order in which the
    entry points check them. *)
Inductive field : Type := F_epoch | F_obs_metadata | F_mjd | F_rotSkyPos.

Definition first_missing (obs_metadata : option ObservationMetaData)
    (epoch : option float) : option field :=
  match epoch, obs_metadata with
  | None, _ => Some F_epoch
  | Some _, None => Some F_obs_metadata
  | Some _, Some obs =>
      match mjd obs, rotSkyPos obs with
      | None, _ => Some F_mjd
      | Some _, None => Some F_rotSkyPos
      | Some _, Some _ => None
      end
  end.




(** The cache of the lookup is empty, or holds what the builder builds. *)
Definition cache_ok `{Camera} (attrs : option lookup_attrs) : Prop :=
  ∃ a, ensure_attrs attrs = Ok a ∧ attrs_ok a.

(** * Properties *)

(** A lemma that does not need the shape hypotheses of its section must not
    depend on them through automation. *)
Ltac forget_shape :=
  repeat match goal with
         | H : length _ = length _ |- _ => clear H
         | H : ∀ i, _ → _ !! i = Some (multi_eligible _ _ _) |- _ => clear H
         end.

(** ** Python lists and numpy arrays *)

Lemma getitem_Ok {A} (l : list A) i a : getitem l i = Ok a ↔ l !! i = Some a.
Proof. unfold getitem. destruct (l !! i); split; congruence. Qed.

Lemma getitem_lt {A} (l : list A) i : i < length l → ∃ a, getitem l i = Ok a ∧ l !! i = Some a.
Proof.
  intros Hi. destruct (lookup_lt_is_Some_2 l i Hi) as [a Ha].
  exists a. split; [by apply getitem_Ok | done].
Qed.

Lemma setitem_lt {A} (l : list A) i v : i < length l → setitem l i v = Ok (<[i := v]> l).
Proof. intros Hi. unfold setitem. by rewrite decide_True. Qed.

Lemma traverse_Ok {A B} (f : A → result B) (g : A → B) (l : list A) :
  (∀ a, a ∈ l → f a = Ok (g a)) → traverse f l = Ok (g <$> l).
Proof.
  induction l as [|a l IH]; intros Hf; [done|]. simpl.
  rewrite Hf by left. simpl. rewrite IH; [done|].
  intros b Hb. apply Hf. by right.
Qed.

Lemma elem_of_np_where (mask : list bool) i : i ∈ np_where mask ↔ mask !! i = Some true.
Proof.
  unfold np_where. rewrite list_elem_of_filter, elem_of_seq. split; [tauto|].
  intros Hi. split; [done|]. apply lookup_lt_Some in Hi. lia.
Qed.

Lemma filter_ext_in {A} (P Q : A → Prop) `{!∀ x, Decision (P x)}
    `{!∀ x, Decision (Q x)} (l : list A) :
  (∀ x, x ∈ l → P x ↔ Q x) → filter P l = filter Q l.
Proof.
  induction l as [|a l IH]; intros Hext; [done|].
  rewrite !filter_cons. rewrite IH by (intros x Hx; apply Hext; by right).
  destruct (decide (P a)) as [HP|HP], (decide (Q a)) as [HQ|HQ]; try done.
  - exfalso. apply HQ. apply (Hext a); [by left|done].
  - exfalso. apply HP. apply (Hext a); [by left|done].
Qed.

Lemma filter_lt_all (i : nat) (l : list nat) :
  Forall (λ j, j < i) l → filter (λ j, j < i) l = l.
Proof.
  induction 1 as [|a l Ha _ IH]; [done|].
  rewrite filter_cons, decide_True by done. by rewrite IH.
Qed.

Lemma NoDup_np_where (mask : list bool) : NoDup (np_where mask).
Proof. apply NoDup_filter, NoDup_seq. Qed.

Lemma elem_of_where_unfound `{Camera} (chf : list Z) i :
  i ∈ where_unfound chf ↔ ∃ c, chf !! i = Some c ∧ (c < 0)%Z.
Proof.
  unfold where_unfound. rewrite elem_of_np_where, list_lookup_fmap.
  destruct (chf !! i) as [c|]; simpl.
  - split.
    + intros [= Hc]. apply bool_decide_eq_true in Hc. eauto.
    + intros (c' & [= <-] & Hc). f_equal. by apply bool_decide_eq_true.
  - split; [done|]. by intros (c & ? & _).
Qed.

(** ** The resolver on well-shaped input: one candidate row per point *)

Section resolver_facts.
Context `{Camera} (pts : list Point2D) (dl : list (list Detector)) (allow : bool).
Hypothesis Hlen : length dl = length pts.

Lemma row_of_lookup i row : dl !! i = Some row → row_of dl i = row.
Proof using Type. unfold row_of. by intros ->. Qed.

Lemma row_of_lt i : i < length pts → dl !! i = Some (row_of dl i).
Proof.
  intros Hi. unfold row_of.
  destruct (lookup_lt_is_Some_2 dl i) as [row ->]; [lia|done].
Qed.

Lemma init_chip_has_found_app (rest : list (list Detector)) (pre suf : list Z) :
  length suf = length rest →
  init_chip_has_found (length pre) rest (pre ++ suf) =
  Ok (pre ++ zip_with (λ row c, if decide (length row = 0) then 1%Z else c) rest suf).
Proof using Type.
  forget_shape.
  revert pre suf. induction rest as [|row rest IH]; intros pre suf Hsuf.
  - destruct suf; [done|discriminate].
  - destruct suf as [|c suf]; [discriminate|]. simpl in *.
    destruct (decide (length row = 0)).
    + rewrite setitem_lt by (rewrite length_app; simpl; lia). simpl.
      replace (<[length pre:=1%Z]> (pre ++ c :: suf)) with ((pre ++ [1%Z]) ++ suf).
      2:{ rewrite insert_app_r_alt by lia. rewrite Nat.sub_diag. simpl.
          by rewrite <- app_assoc. }
      replace (S (length pre)) with (length (pre ++ [1%Z]))
        by (rewrite length_app; simpl; lia).
      rewrite IH by lia. by rewrite <- app_assoc.
    + replace (pre ++ c :: suf) with ((pre ++ [c]) ++ suf) by (by rewrite <- app_assoc).
      replace (S (length pre)) with (length (pre ++ [c]))
        by (rewrite length_app; simpl; lia).
      rewrite IH by lia. by rewrite <- app_assoc.
Qed.

Lemma init_chip_has_found_ok :
  init_chip_has_found 0 dl (replicate (length pts) (-1)%Z) = Ok (chf0 dl).
Proof.
  pose proof (init_chip_has_found_app dl [] (replicate (length pts) (-1)%Z)) as E.
  simpl in E. rewrite E by (rewrite length_replicate; lia).
  f_equal. unfold chf0. rewrite <- Hlen. clear.
  induction dl as [|row l IH]; [done|]. simpl. rewrite IH.
  by destruct row.
Qed.

Lemma for_each_could_be_multiple m : ∀ k cbm,
  k + m = length pts → length cbm = length pts →
  (∀ i, i < k → cbm !! i = Some (has_wavefront (row_of dl i))) →
  (∀ i, k ≤ i → i < length pts → cbm !! i = Some false) →
  ∃ cbm',
    for_each (λ cbm ipt,
                row ← getitem dl ipt;
                if has_wavefront row then setitem cbm ipt true else Ok cbm)
             (seq k m) cbm = Ok cbm' ∧
    length cbm' = length pts ∧
    ∀ i, i < length pts → cbm' !! i = Some (has_wavefront (row_of dl i)).
Proof.
  induction m as [|m IH]; intros k cbm Hk Hcbm Hlo Hhi.
  - exists cbm. split; [done|]. split; [done|]. intros i Hi. apply Hlo. lia.
  - simpl. assert (Hkn : k < length pts) by lia.
    pose proof (row_of_lt k Hkn) as Hrow.
    apply getitem_Ok in Hrow. rewrite Hrow. simpl.
    destruct (has_wavefront (row_of dl k)) eqn:Hw.
    + rewrite setitem_lt by lia. simpl. apply IH.
      * lia.
      * by rewrite length_insert.
      * intros i Hi. destruct (decide (i = k)) as [->|Hne].
        -- rewrite list_lookup_insert_eq by lia. by rewrite Hw.
        -- rewrite list_lookup_insert_ne by done. apply Hlo. lia.
      * intros i Hi Hin. rewrite list_lookup_insert_ne by lia. apply Hhi; lia.
    + apply IH; [lia|done| |].
      * intros i Hi. destruct (decide (i = k)) as [->|Hne].
        -- rewrite Hw. apply Hhi; lia.
        -- apply Hlo. lia.
      * intros i Hi Hin. apply Hhi; lia.
Qed.

(** [could_be_multiple] as the second loop leaves it. *)
Lemma init_could_be_multiple_ok :
  ∃ cbm, init_could_be_multiple (length pts) dl allow = Ok cbm ∧
         length cbm = length pts ∧
         ∀ i, i < length pts → cbm !! i = Some (multi_eligible allow dl i).
Proof.
  unfold init_could_be_multiple, multi_eligible. destruct allow; simpl.
  - apply for_each_could_be_multiple.
    + lia.
    + by rewrite length_replicate.
    + intros i Hi. lia.
    + intros i _ Hi. by apply lookup_replicate_2.
  - exists (replicate (length pts) false). split; [done|].
    split; [by rewrite length_replicate|].
    intros i Hi. by apply lookup_replicate_2.
Qed.

Lemma valid_points_ok d (unfound : list nat) :
  (∀ i, i ∈ unfound → i < length pts) →
  valid_points dl d unfound = Ok (filter (λ i, d ∈ row_of dl i) unfound).
Proof.
  induction unfound as [|i l IH]; intros Hin; [done|]. simpl.
  pose proof (row_of_lt i (Hin i ltac:(left))) as Hrow.
  apply getitem_Ok in Hrow. rewrite Hrow. simpl.
  rewrite IH by (intros j Hj; apply Hin; by right). simpl.
  rewrite filter_cons. by destruct (decide (d ∈ row_of dl i)).
Qed.

Lemma add_name_entry_of name names :
  add_name name (entry_of true names) = entry_of true (names ++ [name]).
Proof using Type. destruct names as [|a [|b l]]; done. Qed.

Context (cbm : list bool).
Hypothesis Hcbm_len : length cbm = length pts.
Hypothesis Hcbm : ∀ i, i < length pts → cbm !! i = Some (multi_eligible allow dl i).

(** The loop over the points handed to a detector: it rewrites the entries
    of the points the box contains and leaves every other entry alone. *)
Lemma test_points_spec d (f : nat → Point2D) idxs : ∀ st,
  NoDup idxs → (∀ i, i ∈ idxs → i < length pts) →
  length (outputNameList st) = length pts →
  length (chip_has_found st) = length pts →
  ∃ st',
    test_points cbm d (getBBox d) st (zip idxs (f <$> idxs)) = Ok st' ∧
    length (outputNameList st') = length pts ∧
    length (chip_has_found st') = length pts ∧
    checked_detectors st' = checked_detectors st ∧
    unfound_pts st' = unfound_pts st ∧
    scanned st' = scanned st ∧ visits st' = visits st ∧
    (update_unfound st' = false →
     update_unfound st = false ∧ chip_has_found st' = chip_has_found st) ∧
    (∀ i o, outputNameList st !! i = Some o →
       outputNameList st' !! i =
       Some (if bool_decide (i ∈ idxs) && Box2D_contains (getBBox d) (f i)
             then (if multi_eligible allow dl i
                   then add_name (getName d) o else PyStr (getName d))
             else o)) ∧
    (∀ i c, chip_has_found st !! i = Some c →
       chip_has_found st' !! i =
       Some (if bool_decide (i ∈ idxs) && Box2D_contains (getBBox d) (f i)
                && negb (multi_eligible allow dl i)
             then 1%Z else c)).
Proof.
  induction idxs as [|i0 idxs IH]; intros st Hnd Hin Hout Hchf.
  - exists st. simpl. repeat split; try done.
  - apply NoDup_cons in Hnd as [Hi0 Hnd].
    assert (Hi0n : i0 < length pts) by (apply Hin; left).
    assert (Hin' : ∀ i, i ∈ idxs → i < length pts) by (intros i Hi; apply Hin; by right).
    unfold test_points in *. simpl.
    destruct (Box2D_contains (getBBox d) (f i0)) eqn:Hbox.
    + (* the point lies in the box *)
      unfold record_hit.
      pose proof (Hcbm i0 Hi0n) as Hc. apply getitem_Ok in Hc. rewrite Hc. simpl.
      destruct (multi_eligible allow dl i0) eqn:Hmulti; simpl.
      * destruct (getitem_lt (outputNameList st) i0) as (cur & Hcur & Hcur'); [lia|].
        rewrite Hcur. simpl. rewrite setitem_lt by lia. simpl.
        set (st1 := mkState _ _ _ _ _ _ _).
        destruct (IH st1 Hnd Hin') as (st' & Hrun & Ho' & Hc' & Hck & Hun & Hsc & Hvi & Hupd & Hnew & Hflag).
        { subst st1; simpl. by rewrite length_insert. }
        { done. }
        exists st'. split; [done|]. repeat split; try done.
        -- by apply Hupd.
        -- apply Hupd in H0. by destruct H0.
        -- intros i o Ho. destruct (decide (i = i0)) as [->|Hne].
           ++ rewrite (Hnew i0 (add_name (getName d) cur)).
              2:{ subst st1; simpl. rewrite list_lookup_insert_eq by lia. done. }
              rewrite (bool_decide_eq_false_2 (i0 ∈ idxs)) by done. simpl.
              rewrite bool_decide_eq_true_2 by left. simpl. rewrite Hbox, Hmulti.
              congruence.
           ++ rewrite (Hnew i o).
              2:{ subst st1; simpl. by rewrite list_lookup_insert_ne. }
              f_equal. destruct (decide (i ∈ idxs)) as [Hi|Hi].
              ** rewrite !bool_decide_eq_true_2; [done|by right|done].
              ** rewrite !bool_decide_eq_false_2; [done| |done].
                 intros [->|?]%elem_of_cons; done.
        -- intros i c Hci. rewrite (Hflag i c) by done. f_equal.
           destruct (decide (i = i0)) as [->|Hne].
           ++ rewrite Hmulti. by rewrite !andb_false_r.
           ++ destruct (decide (i ∈ idxs)) as [Hi|Hi].
              ** rewrite !bool_decide_eq_true_2; [done|by right|done].
              ** rewrite !bool_decide_eq_false_2; [done| |done].
                 intros [->|?]%elem_of_cons; done.
      * rewrite !setitem_lt by lia. simpl.
        set (st1 := mkState _ _ _ _ _ _ _).
        destruct (IH st1 Hnd Hin') as (st' & Hrun & Ho' & Hc' & Hck & Hun & Hsc & Hvi & Hupd & Hnew & Hflag).
        { subst st1; simpl. by rewrite length_insert. }
        { subst st1; simpl. by rewrite length_insert. }
        exists st'. split; [done|]. repeat split; try done.
        -- apply Hupd in H0. by destruct H0.
        -- apply Hupd in H0. by destruct H0.
        -- intros i o Ho. destruct (decide (i = i0)) as [->|Hne].
           ++ rewrite (Hnew i0 (PyStr (getName d))).
              2:{ subst st1; simpl. rewrite list_lookup_insert_eq by lia. done. }
              rewrite (bool_decide_eq_false_2 (i0 ∈ idxs)) by done. simpl.
              rewrite bool_decide_eq_true_2 by left. simpl. by rewrite Hbox, Hmulti.
           ++ rewrite (Hnew i o).
              2:{ subst st1; simpl. by rewrite list_lookup_insert_ne. }
              f_equal. destruct (decide (i ∈ idxs)) as [Hi|Hi].
              ** rewrite !bool_decide_eq_true_2; [done|by right|done].
              ** rewrite !bool_decide_eq_false_2; [done| |done].
                 intros [->|?]%elem_of_cons; done.
        -- intros i c Hci. destruct (decide (i = i0)) as [->|Hne].
           ++ rewrite (Hflag i0 1%Z).
              2:{ subst st1; simpl. rewrite list_lookup_insert_eq by lia. done. }
              rewrite (bool_decide_eq_true_2 (i0 ∈ i0 :: idxs)) by left.
              rewrite Hbox, Hmulti. simpl. f_equal.
              by destruct (bool_decide (i0 ∈ idxs)).
           ++ rewrite (Hflag i c).
              2:{ subst st1; simpl. by rewrite list_lookup_insert_ne. }
              f_equal. destruct (decide (i ∈ idxs)) as [Hi|Hi].
              ** rewrite !bool_decide_eq_true_2; [done|by right|done].
              ** rewrite !bool_decide_eq_false_2; [done| |done].
                 intros [->|?]%elem_of_cons; done.
    + (* the point lies outside *)
      destruct (IH st Hnd Hin' Hout Hchf) as (st' & Hrun & Ho' & Hc' & Hck & Hun & Hsc & Hvi & Hupd & Hnew & Hflag).
      exists st'. split; [done|]. repeat split; try done.
      -- by apply Hupd.
      -- by apply Hupd.
      -- intros i o Ho. rewrite (Hnew i o) by done. f_equal.
         destruct (decide (i = i0)) as [->|Hne].
         ++ rewrite Hbox, !andb_false_r. done.
         ++ destruct (decide (i ∈ idxs)) as [Hi|Hi].
            ** rewrite !bool_decide_eq_true_2; [done|by right|done].
            ** rewrite !bool_decide_eq_false_2; [done| |done].
               intros [->|?]%elem_of_cons; done.
      -- intros i c Hci. rewrite (Hflag i c) by done. f_equal.
         destruct (decide (i = i0)) as [->|Hne].
         ++ rewrite Hbox, !andb_false_r. done.
         ++ destruct (decide (i ∈ idxs)) as [Hi|Hi].
            ** rewrite !bool_decide_eq_true_2; [done|by right|done].
            ** rewrite !bool_decide_eq_false_2; [done| |done].
               intros [->|?]%elem_of_cons; done.
Qed.

Lemma hits_snoc cd d i :
  hits pts dl (cd ++ [d]) i =
  hits pts dl cd i ++
  (if decide (d ∈ row_of dl i ∧ on_chip pts d i = true) then [d] else []).
Proof using Type.
  forget_shape.
  unfold hits. by rewrite filter_app.
Qed.

(** One more detector in the list of checked detectors, seen from one
    point: the point was tested on it when it was still searched for and the
    detector is among its candidates. *)
Lemma step_entry cd d i :
  let multi := multi_eligible allow dl i in
  let old := entry_of multi (getName <$> hits pts dl cd i) in
  let tested := negb (resolved_at pts dl allow cd i) &&
                bool_decide (d ∈ row_of dl i) && on_chip pts d i in
  entry_of multi (getName <$> hits pts dl (cd ++ [d]) i) =
    (if tested then (if multi then add_name (getName d) old else PyStr (getName d))
     else old) ∧
  found_flag (resolved_at pts dl allow (cd ++ [d]) i) =
    (if tested && negb multi then 1%Z
     else found_flag (resolved_at pts dl allow cd i)).
Proof using Type.
  forget_shape.
  intros multi old tested. subst old tested. unfold resolved_at.
  rewrite hits_snoc. fold multi.
  destruct (decide (row_of dl i = [])) as [Hrow|Hrow].
  - rewrite (bool_decide_eq_true_2 (row_of dl i = [])) by done. simpl.
    rewrite decide_False, app_nil_r; [done|].
    rewrite Hrow. intros [Hd _]. by apply elem_of_nil in Hd.
  - rewrite (bool_decide_eq_false_2 (row_of dl i = [])) by done. simpl.
    destruct (decide (d ∈ row_of dl i)) as [Hd|Hd].
    2:{ rewrite decide_False by tauto. rewrite app_nil_r.
        rewrite (bool_decide_eq_false_2 (d ∈ row_of dl i)) by done.
        by rewrite andb_false_r. }
    rewrite (bool_decide_eq_true_2 (d ∈ row_of dl i)) by done.
    destruct (on_chip pts d i) eqn:Hon.
    2:{ rewrite decide_False by (intros [_ ?]; done). rewrite app_nil_r.
        by rewrite !andb_false_r. }
    rewrite decide_True by done. rewrite fmap_app. simpl.
    destruct multi; simpl.
    + split; [|done]. symmetry. apply add_name_entry_of.
    + destruct (hits pts dl cd i) as [|h t] eqn:Hh; simpl;
        repeat case_bool_decide; done.
Qed.

Lemma inv_unfound_iff g st i :
  resolver_inv pts dl allow g st →
  i ∈ where_unfound (chip_has_found st) ↔
  i < length pts ∧ resolved_at pts dl allow (checked_detectors st) i = false.
Proof using Type.
  forget_shape.
  intros Hinv. rewrite elem_of_where_unfound. split.
  - intros (c & Hc & Hneg).
    assert (Hi : i < length pts).
    { apply lookup_lt_Some in Hc. by rewrite (inv_len_chf _ _ _ _ _ Hinv) in Hc. }
    split; [done|]. rewrite (inv_chf _ _ _ _ _ Hinv i Hi) in Hc.
    injection Hc as <-. by destruct (resolved_at _ _ _ _ _).
  - intros [Hi Hres]. exists (-1)%Z. split; [|lia].
    by rewrite (inv_chf _ _ _ _ _ Hinv i Hi), Hres.
Qed.

Lemma where_unfound_unresolved g st :
  resolver_inv pts dl allow g st →
  where_unfound (chip_has_found st) = unresolved pts dl allow (checked_detectors st).
Proof using Type.
  forget_shape.
  intros Hinv. unfold where_unfound at 1, np_where, unresolved.
  rewrite length_fmap, (inv_len_chf _ _ _ _ _ Hinv).
  apply filter_ext_in. intros i Hi%elem_of_seq.
  rewrite <- elem_of_np_where.
  change (i ∈ where_unfound (chip_has_found st) ↔
          resolved_at pts dl allow (checked_detectors st) i = false).
  rewrite (inv_unfound_iff g st i Hinv). split; [tauto|].
  intros ?. split; [lia|done].
Qed.

Lemma on_chip_native d i :
  on_chip pts d i =
  Box2D_contains (getBBox d)
    (getTransform d (default (mkPoint2D 0 0) ((transformSingleSys <$> pts) !! i))) ∨
  length pts ≤ i.
Proof using Type.
  forget_shape.
  destruct (decide (i < length pts)) as [Hi|Hi]; [left|right; lia].
  unfold on_chip. rewrite list_lookup_fmap.
  by destruct (lookup_lt_is_Some_2 pts i Hi) as [p ->].
Qed.

(** One pass through the body guarded by
    [if detector not in checked_detectors]. *)
Lemma visit_detector_spec d st :
  resolver_inv pts dl allow id st → d ∉ checked_detectors st →
  let unf := where_unfound (chip_has_found st) in
  ∃ fl, visit_detector dl (transformSingleSys <$> pts) cbm d st = Ok fl ∧
    checked_detectors (flow_val fl) = checked_detectors st ++ [d] ∧
    scanned (flow_val fl) = scanned st ∧
    match fl with
    | Continue st' =>
        resolver_inv pts dl allow id st' ∧ unf ≠ [] ∧
        visits st' =
        visits st ++ [mkVisit d unf (filter (λ i, d ∈ row_of dl i) unf)]
    | Return st' =>
        resolver_inv pts dl allow stringify_entry st' ∧ unf = [] ∧
        visits st' = visits st ++ [mkVisit d [] []] ∧
        chip_has_found st' = chip_has_found st
    end.
Proof.
  intros Hinv Hd unf.
  assert (Hunf : (if update_unfound st then where_unfound (chip_has_found st)
                  else unfound_pts st) = unf).
  { destruct (update_unfound st) eqn:E; [done|]. by apply Hinv. }
  assert (Hnd : NoDup (checked_detectors st ++ [d])).
  { apply NoDup_app. split; [apply Hinv|]. split; [|apply NoDup_singleton].
    intros x Hx ->%list_elem_of_singleton. done. }
  unfold visit_detector. rewrite Hunf.
  destruct (decide (length unf = 0)) as [Hz|Hnz].
  - (* nothing is searched for any more: the function returns *)
    apply nil_length_inv in Hz.
    assert (Hres : ∀ i, i < length pts →
                   resolved_at pts dl allow (checked_detectors st) i = true).
    { intros i Hi. apply not_false_iff_true. intros Hf.
      assert (i ∈ unf) as Hin by (apply (inv_unfound_iff id st); done).
      rewrite Hz in Hin. by apply elem_of_nil in Hin. }
    eexists. split; [done|]. simpl. split; [done|]. split; [done|].
    split; [|by rewrite Hz]. constructor; simpl.
    + unfold stringify. rewrite length_fmap. apply Hinv.
    + apply Hinv.
    + done.
    + done.
    + intros i Hi. unfold stringify.
      rewrite list_lookup_fmap, (inv_out _ _ _ _ _ Hinv i Hi). simpl.
      destruct (step_entry (checked_detectors st) d i) as [E _].
      rewrite E, (Hres i Hi). done.
    + intros i Hi. rewrite (inv_chf _ _ _ _ _ Hinv i Hi).
      destruct (step_entry (checked_detectors st) d i) as [_ E].
      rewrite E, (Hres i Hi). done.
  - assert (Hunf_lt : ∀ i, i ∈ unf → i < length pts).
    { intros i Hi. by apply (inv_unfound_iff id st) in Hi as [? _]. }
    rewrite valid_points_ok by done. simpl.
    set (valid := filter (λ i, d ∈ row_of dl i) unf).
    set (g := λ i, default (mkPoint2D 0 0) ((transformSingleSys <$> pts) !! i)).
    assert (Hvalid : ∀ i, i ∈ valid ↔ i ∈ unf ∧ d ∈ row_of dl i).
    { intros i. subst valid. by rewrite list_elem_of_filter, (comm and). }
    assert (Htake : take_items (transformSingleSys <$> pts) valid = Ok (g <$> valid)).
    { apply traverse_Ok. intros i Hi. apply getitem_Ok. subst g. simpl.
      apply Hvalid in Hi as [Hi _]. apply Hunf_lt in Hi.
      rewrite list_lookup_fmap.
      by destruct (lookup_lt_is_Some_2 pts i Hi) as [p ->]. }
    set (st1 := mkState (outputNameList st) (chip_has_found st)
                        (checked_detectors st ++ [d]) false unf (scanned st)
                        (visits st)).
    destruct (test_points_spec d (λ i, getTransform d (g i)) valid st1)
      as (st2 & Hrun & Ho2 & Hc2 & Hck & Hun & Hsc & Hvi & Hupd & Hnew & Hflag).
    { subst valid. apply NoDup_filter, NoDup_np_where. }
    { intros i Hi. apply Hunf_lt. by apply Hvalid in Hi as [? _]. }
    { apply Hinv. }
    { apply Hinv. }
    subst st1.
    cbn [outputNameList chip_has_found checked_detectors update_unfound
         unfound_pts scanned visits] in Hck, Hun, Hsc, Hvi, Hupd, Hnew, Hflag.
    assert (Htested : ∀ i, i < length pts →
              bool_decide (i ∈ valid) && Box2D_contains (getBBox d) (getTransform d (g i)) =
              negb (resolved_at pts dl allow (checked_detectors st) i) &&
              bool_decide (d ∈ row_of dl i) && on_chip pts d i).
    { intros i Hi. destruct (on_chip_native d i) as [->|?]; [|lia]. fold (g i).
      f_equal. apply eq_bool_prop_intro.
      rewrite bool_decide_spec, andb_True, negb_True, bool_decide_spec, Hvalid.
      unfold unf. rewrite (inv_unfound_iff id st i Hinv). rewrite Is_true_false.
      tauto. }
    assert (Hpost : ∀ v, resolver_inv pts dl allow id (log_visit st2 v)).
    { intros v. unfold log_visit.
      constructor;
        cbn [outputNameList chip_has_found checked_detectors update_unfound
             unfound_pts]; try done.
      - by rewrite Hck.
      - intros Hu. apply Hupd in Hu as [_ Hu]. by rewrite Hun, Hu.
      - intros i Hi. rewrite Hck.
        rewrite (Hnew i _ (inv_out _ _ _ _ _ Hinv i Hi)). simpl. f_equal.
        destruct (step_entry (checked_detectors st) d i) as [E _].
        by rewrite E, (Htested i Hi).
      - intros i Hi. rewrite Hck.
        rewrite (Hflag i _ (inv_chf _ _ _ _ _ Hinv i Hi)). f_equal.
        destruct (step_entry (checked_detectors st) d i) as [_ E].
        by rewrite E, (Htested i Hi). }
    assert (Hne : unf ≠ []) by (intros E; apply Hnz; by rewrite E).
    destruct (decide (0 < length valid)) as [Hpos|Hzero].
    + rewrite Htake. simpl. rewrite <- list_fmap_compose.
      unfold compose. rewrite Hrun. simpl.
      eexists. split; [done|]. cbn [flow_val].
      split; [by simpl|]. split; [by simpl|]. split; [apply Hpost|].
      split; [done|]. simpl. by rewrite Hvi.
    + assert (valid = []) as Hnil by (destruct valid; [done|simpl in Hzero; lia]).
      rewrite Hnil in Hrun. simpl in Hrun. injection Hrun as <-.
      eexists. split; [done|]. cbn [flow_val].
      split; [by simpl|]. split; [by simpl|]. split; [apply Hpost|].
      split; [done|]. simpl. by rewrite Hnil.
Qed.

Lemma first_seen_from_prefix acc l : acc `prefix_of` first_seen_from acc l.
Proof using Type.
  forget_shape.
  revert acc. induction l as [|d l IH]; intros acc; [done|]. simpl.
  etrans; [|apply IH]. unfold see. case_decide; [done|]. by apply prefix_app_r.
Qed.

Lemma first_seen_from_app acc l1 l2 :
  first_seen_from acc (l1 ++ l2) = first_seen_from (first_seen_from acc l1) l2.
Proof using Type. unfold first_seen_from. apply foldl_app. Qed.

Lemma elem_of_first_seen_from acc l d :
  d ∈ first_seen_from acc l ↔ d ∈ acc ∨ d ∈ l.
Proof using Type.
  forget_shape.
  revert acc. induction l as [|x l IH]; intros acc; simpl.
  - rewrite elem_of_nil. tauto.
  - rewrite IH, elem_of_cons. unfold see. case_decide.
    + split; [tauto|]. intros [?|[->|?]]; tauto.
    + rewrite elem_of_app, list_elem_of_singleton. tauto.
Qed.

Lemma NoDup_first_seen_from acc l : NoDup acc → NoDup (first_seen_from acc l).
Proof using Type.
  forget_shape.
  revert acc. induction l as [|x l IH]; intros acc Hacc; [done|]. simpl.
  apply IH. unfold see. case_decide; [done|].
  apply NoDup_app. split; [done|]. split; [|apply NoDup_singleton].
  intros y Hy ->%list_elem_of_singleton. done.
Qed.

Lemma resolved_at_mono cd cd' i :
  cd `prefix_of` cd' →
  resolved_at pts dl allow cd i = true → resolved_at pts dl allow cd' i = true.
Proof using Type.
  forget_shape.
  intros [k ->]. unfold resolved_at, hits. rewrite filter_app.
  rewrite !orb_true_iff, !andb_true_iff, !bool_decide_eq_true.
  intros [?|[? Hne]]; [by left|right]. split; [done|].
  intros [E _]%app_eq_nil. done.
Qed.

Lemma trace_inv_snoc st st' d unf :
  resolver_inv pts dl allow id st → trace_inv pts dl st →
  checked_detectors st' = checked_detectors st ++ [d] →
  visits st' =
    visits st ++ [mkVisit d unf (filter (λ i, d ∈ row_of dl i) unf)] →
  (∀ i, i ∈ unf → i ∈ where_unfound (chip_has_found st)) →
  trace_inv pts dl st'.
Proof using Type.
  forget_shape.
  intros Hinv Htr Hck Hvi Hunf. constructor.
  - rewrite Hck, Hvi, fmap_app. simpl. by rewrite (tr_checked _ _ _ Htr).
  - intros v. rewrite Hvi, elem_of_app, list_elem_of_singleton.
    intros [Hv| ->]; [by apply Htr|done].
  - intros v i. rewrite Hvi, elem_of_app, list_elem_of_singleton.
    intros [Hv| ->] Hi; [by apply (tr_unfound _ _ _ Htr v)|].
    simpl in Hi. apply Hunf, (inv_unfound_iff id st) in Hi as [Hi Hres]; [|done].
    split; [done|]. intros Hrow. unfold resolved_at in Hres.
    by rewrite (bool_decide_eq_true_2 _ Hrow) in Hres.
Qed.

Lemma unfound_exact_snoc st st' d tested :
  resolver_inv pts dl allow id st → trace_inv pts dl st →
  unfound_exact pts dl allow st →
  checked_detectors st' = checked_detectors st ++ [d] →
  visits st' =
    visits st ++ [mkVisit d (where_unfound (chip_has_found st)) tested] →
  unfound_exact pts dl allow st'.
Proof using Type.
  forget_shape.
  intros Hinv Htr Hex Hck Hvi n v Hv.
  assert (Hl : length (visits st) = length (checked_detectors st)).
  { by rewrite (tr_checked _ _ _ Htr), length_fmap. }
  rewrite Hvi in Hv. rewrite Hck.
  apply lookup_app_Some in Hv as [Hv|[Hn Hv]].
  - rewrite take_app_le by (apply lookup_lt_Some in Hv; lia). by apply Hex.
  - destruct (n - length (visits st)) as [|m] eqn:E; [|done].
    injection Hv as <-. cbn [v_unfound].
    rewrite take_app_length' by lia.
    by apply (where_unfound_unresolved id).
Qed.

(** The loop over the candidates of one point. *)
Lemma detector_loop_spec row : ∀ st,
  resolver_inv pts dl allow id st → trace_inv pts dl st → live st →
  unfound_exact pts dl allow st →
  ∃ fl, detector_loop dl (transformSingleSys <$> pts) cbm row st = Ok fl ∧
    scanned (flow_val fl) = scanned st ∧
    trace_inv pts dl (flow_val fl) ∧
    unfound_exact pts dl allow (flow_val fl) ∧
    match fl with
    | Continue st' =>
        resolver_inv pts dl allow id st' ∧ live st' ∧
        checked_detectors st' = first_seen_from (checked_detectors st) row
    | Return st' =>
        resolver_inv pts dl allow stringify_entry st' ∧ early_exit_trace st' ∧
        checked_detectors st' `prefix_of` first_seen_from (checked_detectors st) row ∧
        where_unfound (chip_has_found st') = []
    end.
Proof.
  induction row as [|d row IH]; intros st Hinv Htr Hlive Hex.
  - exists (Continue st). by simpl.
  - simpl. unfold see. destruct (decide (d ∈ checked_detectors st)) as [Hd|Hd].
    + by apply IH.
    + destruct (visit_detector_spec d st Hinv Hd) as (fl & Hrun & Hck & Hsc & Hfl).
      rewrite Hrun. simpl. destruct fl as [st'|st']; simpl in *.
      * destruct Hfl as (Hinv' & Hne & Hvi).
        assert (Htr' : trace_inv pts dl st').
        { eapply trace_inv_snoc; [exact Hinv|exact Htr|exact Hck|exact Hvi|auto]. }
        assert (Hlive' : live st').
        { unfold live. rewrite Hvi. apply Forall_app. split; [done|].
          by apply Forall_singleton. }
        assert (Hex' : unfound_exact pts dl allow st').
        { eapply unfound_exact_snoc; [exact Hinv|exact Htr|exact Hex|exact Hck|exact Hvi]. }
        destruct (IH st' Hinv' Htr' Hlive' Hex')
          as (fl & Hrun' & Hsc' & Htr'' & Hex'' & Hfl').
        exists fl. split; [done|]. split; [congruence|]. split; [done|].
        split; [done|]. by rewrite <- Hck.
      * destruct Hfl as (Hinv' & Hnil & Hvi & Hchf).
        eexists. split; [done|]. simpl. split; [done|]. split.
        { apply (trace_inv_snoc st st' d []); [done|done|done|by rewrite Hvi|].
          intros i Hi. by apply elem_of_nil in Hi. }
        split.
        { apply (unfound_exact_snoc st st' d []); [done|done|done|done|].
          by rewrite Hvi, Hnil. }
        split; [done|]. split; [by exists (visits st), d|].
        split; [rewrite Hck; apply first_seen_from_prefix|].
        by rewrite Hchf.
Qed.

Lemma scan_ok_snoc k sc :
  scan_ok dl k sc → row_of dl k ≠ [] → scan_ok dl (S k) (sc ++ [k]).
Proof using Type.
  forget_shape.
  intros [Hs Hf] Hrow. split.
  - apply StronglySorted_app_2; [|done|repeat constructor].
    intros x1 x2 Hx1 ->%list_elem_of_singleton.
    rewrite Forall_forall in Hf. by apply Hf in Hx1 as [? _].
  - apply Forall_app. split.
    + eapply Forall_impl; [done|]. simpl. intros i [? ?]. split; [lia|done].
    + apply Forall_singleton. split; [lia|done].
Qed.

Lemma scan_ok_weaken k k' sc : k ≤ k' → scan_ok dl k sc → scan_ok dl k' sc.
Proof using Type.
  forget_shape.
  intros Hk [Hs Hf]. split; [done|].
  eapply Forall_impl; [done|]. simpl. intros i [? ?]. split; [lia|done].
Qed.

Lemma scanned_rows_snoc sc k :
  first_seen (scanned_rows dl (sc ++ [k])) =
  first_seen_from (first_seen (scanned_rows dl sc)) (row_of dl k).
Proof using Type.
  forget_shape.
  unfold scanned_rows, first_seen. rewrite bind_app, bind_singleton.
  apply first_seen_from_app.
Qed.

(** A point found resolved when the scan reaches it is not scanned. *)
Lemma scan_exact_skip k sc :
  scan_ok dl k sc → scan_exact pts dl allow k sc →
  resolved_at pts dl allow (first_seen (scanned_rows dl sc)) k = true →
  scan_exact pts dl allow (S k) sc.
Proof using Type.
  forget_shape.
  intros [_ Hf] Hsx Hres i Hi.
  destruct (decide (i = k)) as [->|Hne]; [|apply Hsx; lia].
  rewrite filter_lt_all by (eapply Forall_impl; [exact Hf|]; simpl; tauto).
  rewrite Hres. split; [|done].
  intros Hin. rewrite Forall_forall in Hf. apply Hf in Hin as [? _]. lia.
Qed.

(** A point found unresolved when the scan reaches it is scanned. *)
Lemma scan_exact_snoc k sc :
  scan_ok dl k sc → scan_exact pts dl allow k sc →
  resolved_at pts dl allow (first_seen (scanned_rows dl sc)) k = false →
  scan_exact pts dl allow (S k) (sc ++ [k]).
Proof using Type.
  forget_shape.
  intros [_ Hf] Hsx Hres i Hi. rewrite filter_app, elem_of_app, list_elem_of_singleton.
  rewrite (filter_cons _ k), filter_nil.
  destruct (decide (i = k)) as [->|Hne].
  - rewrite decide_False by lia. rewrite app_nil_r.
    rewrite filter_lt_all by (eapply Forall_impl; [exact Hf|]; simpl; tauto).
    split; [done|]. intros _. by right.
  - rewrite decide_False by lia. rewrite app_nil_r.
    rewrite <- (Hsx i) by lia. split; [|by left]. intros [?|?]; [done|lia].
Qed.

(** After the early exit no further point is scanned, and none was left
    unresolved. *)
Lemma scan_exact_exit k sc cd :
  scan_ok dl (S k) sc → scan_exact pts dl allow (S k) sc →
  cd `prefix_of` first_seen (scanned_rows dl sc) →
  (∀ i, i < length pts → resolved_at pts dl allow cd i = true) →
  scan_exact pts dl allow (length pts) sc.
Proof using Type.
  forget_shape.
  intros [_ Hf] Hsx Hpre Hres i Hi.
  destruct (decide (i < S k)) as [Hlt|Hge]; [by apply Hsx|].
  rewrite filter_lt_all by (eapply Forall_impl; [exact Hf|]; simpl; lia).
  rewrite (resolved_at_mono _ _ i Hpre (Hres i Hi)). split; [|done].
  intros Hin. rewrite Forall_forall in Hf. apply Hf in Hin as [? _]. lia.
Qed.

Lemma scan_fold_prefix (l : list nat) : ∀ cd,
  cd `prefix_of` foldl (scan_step pts dl allow) cd l.
Proof using Type.
  forget_shape.
  induction l as [|k l IH]; intros cd; [done|]. simpl.
  etrans; [|apply IH]. unfold scan_step.
  destruct (resolved_at pts dl allow cd k); [done|apply first_seen_from_prefix].
Qed.

Lemma scan_fold_S k :
  foldl (scan_step pts dl allow) [] (seq 0 (S k)) =
  scan_step pts dl allow (foldl (scan_step pts dl allow) [] (seq 0 k)) k.
Proof using Type. forget_shape. by rewrite seq_S, foldl_app. Qed.

Lemma scan_fold_resolver_order k :
  k ≤ length pts →
  foldl (scan_step pts dl allow) [] (seq 0 k) `prefix_of` resolver_order pts dl allow.
Proof using Type.
  forget_shape.
  intros Hk. unfold resolver_order.
  replace (length pts) with (k + (length pts - k)) by lia.
  rewrite seq_app, foldl_app. apply scan_fold_prefix.
Qed.

(** The loop over the points. *)
Lemma point_loop_spec m : ∀ k st,
  k + m = length pts →
  resolver_inv pts dl allow id st → trace_inv pts dl st → live st →
  checked_detectors st = first_seen (scanned_rows dl (scanned st)) →
  scan_ok dl k (scanned st) → complete pts dl allow k st →
  unfound_exact pts dl allow st → scan_exact pts dl allow k (scanned st) →
  checked_detectors st = foldl (scan_step pts dl allow) [] (seq 0 k) →
  ∃ fl, point_loop dl (transformSingleSys <$> pts) cbm (seq k m) st = Ok fl ∧
    trace_inv pts dl (flow_val fl) ∧
    scan_ok dl (length pts) (scanned (flow_val fl)) ∧
    unfound_exact pts dl allow (flow_val fl) ∧
    scan_exact pts dl allow (length pts) (scanned (flow_val fl)) ∧
    (checked_detectors (flow_val fl) `prefix_of` resolver_order pts dl allow ∧
     ∀ st', fl = Continue st' → checked_detectors st' = resolver_order pts dl allow) ∧
    match fl with
    | Continue st' =>
        resolver_inv pts dl allow id st' ∧ live st' ∧
        checked_detectors st' = first_seen (scanned_rows dl (scanned st')) ∧
        complete pts dl allow (length pts) st'
    | Return st' =>
        resolver_inv pts dl allow stringify_entry st' ∧ early_exit_trace st' ∧
        checked_detectors st' `prefix_of`
          first_seen (scanned_rows dl (scanned st')) ∧
        where_unfound (chip_has_found st') = []
    end.
Proof.
  induction m as [|m IH]; intros k st Hk Hinv Htr Hlive Hord Hscan Hcomp Hex Hsx Hro.
  - exists (Continue st). simpl. assert (k = length pts) as -> by lia.
    assert (Heq : checked_detectors st = resolver_order pts dl allow) by done.
    split; [done|]. split; [done|]. split; [done|]. split; [done|].
    split; [done|]. split; [|done].
    rewrite Heq. split; [done|]. by intros st' [= <-].
  - assert (Hkn : k < length pts) by lia. simpl.
    pose proof (inv_chf _ _ _ _ _ Hinv k Hkn) as Hc.
    apply getitem_Ok in Hc. rewrite Hc. simpl.
    destruct (resolved_at pts dl allow (checked_detectors st) k) eqn:Hres; simpl.
    + (* the point needs no search *)
      apply IH; try done; [lia|by eapply scan_ok_weaken; [|done]; lia| | |].
      * intros i Hi Hr. destruct (decide (i = k)) as [->|Hne]; [congruence|].
        apply Hcomp; [lia|done].
      * apply scan_exact_skip; [done|done|]. by rewrite <- Hord.
      * rewrite scan_fold_S, <- Hro. unfold scan_step. by rewrite Hres.
    + pose proof (row_of_lt k Hkn) as Hrow.
      apply getitem_Ok in Hrow. rewrite Hrow. simpl.
      assert (Hrow_ne : row_of dl k ≠ []).
      { intros E. unfold resolved_at in Hres.
        by rewrite (bool_decide_eq_true_2 _ E) in Hres. }
      assert (Hsx' : scan_exact pts dl allow (S k) (scanned st ++ [k])).
      { apply scan_exact_snoc; [done|done|]. by rewrite <- Hord. }
      destruct (detector_loop_spec (row_of dl k) (log_scan st k))
        as (fl & Hrun & Hsc & Htr' & Hex' & Hfl).
      { destruct Hinv. by constructor. }
      { destruct Htr. by constructor. }
      { done. }
      { done. }
      rewrite Hrun. simpl. simpl in Hsc.
      destruct fl as [st'|st']; simpl in *.
      * destruct Hfl as (Hinv' & Hlive' & Hck).
        apply IH; try done; [lia| | | | |].
        -- by rewrite Hsc, scanned_rows_snoc, <- Hord.
        -- rewrite Hsc. by apply scan_ok_snoc.
        -- intros i Hi Hr. destruct (decide (i = k)) as [->|Hne].
           ++ intros d Hd. rewrite Hck. apply elem_of_first_seen_from. by right.
           ++ assert (Hpre : checked_detectors st `prefix_of` checked_detectors st').
              { rewrite Hck. apply first_seen_from_prefix. }
              etrans; [apply Hcomp; [lia|]|].
              ** apply not_true_iff_false. intros Ht.
                 apply (resolved_at_mono _ _ _ Hpre) in Ht. congruence.
              ** destruct Hpre as [l ->]. intros d Hd. apply elem_of_app. by left.
        -- by rewrite Hsc.
        -- rewrite scan_fold_S, <- Hro. unfold scan_step. by rewrite Hres.
      * destruct Hfl as (Hinv' & Hexit & Hpre & Hnil).
        assert (Hpre' : checked_detectors st' `prefix_of`
                          first_seen (scanned_rows dl (scanned st'))).
        { by rewrite Hsc, scanned_rows_snoc, <- Hord. }
        eexists. split; [done|]. simpl. split; [done|]. split.
        { rewrite Hsc. eapply scan_ok_weaken; [|by apply scan_ok_snoc]. lia. }
        split; [done|]. split.
        { rewrite Hsc in Hpre' |- *.
          apply (scan_exact_exit k _ (checked_detectors st'));
            [by apply scan_ok_snoc|done|done|].
          intros i Hi. apply not_false_iff_true. intros Hf.
          assert (i ∈ where_unfound (chip_has_found st')) as Hin
            by (by apply (inv_unfound_iff stringify_entry st')).
          rewrite Hnil in Hin. by apply elem_of_nil in Hin. }
        split.
        { split; [|done]. etrans; [exact Hpre|].
          etrans; [|apply (scan_fold_resolver_order (S k)); lia].
          rewrite scan_fold_S, <- Hro. unfold scan_step. by rewrite Hres. }
        split; [done|]. split; [done|]. split; [done|done].
Qed.

End resolver_facts.

Section resolver_run.
Context `{Camera} (pts : list Point2D) (dl : list (list Detector)) (allow : bool).
Hypothesis Hlen : length dl = length pts.

Lemma resolver_inv_init :
  resolver_inv pts dl allow id
    (mkState (replicate (length pts) PyNone) (chf0 dl) [] true [] [] []).
Proof.
  constructor; simpl.
  - by rewrite length_replicate.
  - unfold chf0. by rewrite length_fmap.
  - constructor.
  - done.
  - intros i Hi. rewrite lookup_replicate_2 by done.
    by destruct (multi_eligible _ _ _).
  - intros i Hi. unfold chf0. rewrite list_lookup_fmap.
    rewrite (row_of_lt pts dl Hlen i Hi). simpl. do 2 f_equal.
    unfold resolved_at, hits. simpl.
    by rewrite andb_false_r, orb_false_r.
Qed.

(** On one candidate row per point the resolver raises nothing, and its
    final state is described by the detectors it checked. *)
Lemma resolver_run_full :
  ∃ fl, findDetectorsListLSST_run pts dl allow = Ok fl ∧
    resolver_inv pts dl allow stringify_entry (flow_val fl) ∧
    trace_inv pts dl (flow_val fl) ∧
    scan_ok dl (length pts) (scanned (flow_val fl)) ∧
    (unfound_exact pts dl allow (flow_val fl) ∧
     scan_exact pts dl allow (length pts) (scanned (flow_val fl)) ∧
     checked_detectors (flow_val fl) `prefix_of` resolver_order pts dl allow ∧
     ∀ st, fl = Continue st → checked_detectors st = resolver_order pts dl allow) ∧
    match fl with
    | Continue st =>
        live st ∧
        checked_detectors st = first_seen (scanned_rows dl (scanned st)) ∧
        complete pts dl allow (length pts) st
    | Return st =>
        early_exit_trace st ∧
        checked_detectors st `prefix_of`
          first_seen (scanned_rows dl (scanned st)) ∧
        where_unfound (chip_has_found st) = []
    end.
Proof.
  unfold findDetectorsListLSST_run.
  rewrite (init_chip_has_found_ok pts dl Hlen). simpl.
  destruct (init_could_be_multiple_ok pts dl allow Hlen) as (cbm & -> & Hcl & Hcbm).
  simpl. rewrite length_fmap.
  destruct (point_loop_spec pts dl allow Hlen cbm Hcl Hcbm (length pts) 0
              (mkState (replicate (length pts) PyNone) (chf0 dl) [] true [] [] []))
    as (fl & -> & Htr & Hscan & Hex & Hsx & [Hpre Heq] & Hfl).
  - done.
  - apply resolver_inv_init.
  - constructor; simpl; [done|intros v Hv|intros v i Hv]; by apply elem_of_nil in Hv.
  - constructor.
  - done.
  - split; constructor.
  - intros i Hi. lia.
  - intros n v Hv. simpl in Hv. by rewrite lookup_nil in Hv.
  - intros i Hi. lia.
  - done.
  - simpl. destruct fl as [st|st]; simpl in *.
    + destruct Hfl as (Hinv & Hlive & Hord & Hcomp).
      eexists. split; [done|]. simpl. split.
      { destruct Hinv as [? ? ? ? Hout ?]. constructor; simpl; try done.
        - unfold stringify. by rewrite length_fmap.
        - intros i Hi. unfold stringify. by rewrite list_lookup_fmap, (Hout i Hi). }
      split; [by destruct Htr|]. split; [done|]. split.
      { split; [done|]. split; [done|]. split; [done|].
        intros st' [= <-]. simpl. by apply Heq. }
      done.
    + eexists. split; [done|]. simpl. destruct Hfl as (? & ? & ? & ?).
      split; [done|]. split; [done|]. split; [done|]. split; [|done].
      split; [done|]. split; [done|]. split; [done|]. intros st' [=].
Qed.

Lemma resolver_run_spec :
  ∃ fl, findDetectorsListLSST_run pts dl allow = Ok fl ∧
    resolver_inv pts dl allow stringify_entry (flow_val fl) ∧
    trace_inv pts dl (flow_val fl) ∧
    scan_ok dl (length pts) (scanned (flow_val fl)) ∧
    match fl with
    | Continue st =>
        live st ∧
        checked_detectors st = first_seen (scanned_rows dl (scanned st)) ∧
        complete pts dl allow (length pts) st
    | Return st =>
        early_exit_trace st ∧
        checked_detectors st `prefix_of`
          first_seen (scanned_rows dl (scanned st)) ∧
        where_unfound (chip_has_found st) = []
    end.
Proof.
  destruct resolver_run_full as (fl & Hrun & Hinv & Htr & Hscan & _ & Hfl).
  by exists fl.
Qed.

(** A checked detector is a candidate of a point whose row was scanned. *)
Lemma checked_scanned fl d :
  findDetectorsListLSST_run pts dl allow = Ok fl →
  d ∈ checked_detectors (flow_val fl) →
  ∃ i, i ∈ scanned (flow_val fl) ∧ d ∈ row_of dl i.
Proof.
  intros Hrun Hd. destruct resolver_run_full as (fl' & Hrun' & _ & _ & _ & _ & Hfl).
  rewrite Hrun in Hrun'. injection Hrun' as <-.
  assert (Hin : d ∈ first_seen (scanned_rows dl (scanned (flow_val fl)))).
  { destruct fl as [st|st]; simpl in *.
    - destruct Hfl as (_ & <- & _). done.
    - destruct Hfl as (_ & Hpre & _). by eapply elem_of_prefix. }
  apply elem_of_first_seen_from in Hin as [Hin|Hin]; [by apply elem_of_nil in Hin|].
  apply list_elem_of_bind in Hin as (i & Hdi & Hi). eauto.
Qed.

(** What every pass saw as searched-for, and which rows were scanned. *)
Lemma resolver_run_exact fl :
  findDetectorsListLSST_run pts dl allow = Ok fl →
  unfound_exact pts dl allow (flow_val fl) ∧
  scan_exact pts dl allow (length pts) (scanned (flow_val fl)) ∧
  checked_detectors (flow_val fl) `prefix_of` resolver_order pts dl allow ∧
  ∀ st, fl = Continue st → checked_detectors st = resolver_order pts dl allow.
Proof.
  intros Hrun. destruct resolver_run_full as (fl' & Hrun' & _ & _ & _ & Hex & _).
  rewrite Hrun in Hrun'. by injection Hrun' as <-.
Qed.

(** The resolver returns, with one entry per point. *)
Lemma resolver_returns :
  ∃ out, _findDetectorsListLSST pts dl allow = Ok out ∧ length out = length pts.
Proof.
  unfold _findDetectorsListLSST.
  destruct resolver_run_spec as (fl & -> & Hinv & _). simpl.
  eexists. split; [done|]. apply Hinv.
Qed.

(** A point still searched for at the end was tested on all its candidates. *)
Lemma resolver_complete fl i :
  findDetectorsListLSST_run pts dl allow = Ok fl → i < length pts →
  resolved_at pts dl allow (checked_detectors (flow_val fl)) i = false →
  row_of dl i ⊆ checked_detectors (flow_val fl).
Proof.
  intros Hrun Hi Hres. destruct resolver_run_spec as (fl' & Hrun' & Hinv & _ & _ & Hfl).
  rewrite Hrun in Hrun'. injection Hrun' as <-.
  destruct fl as [st|st]; simpl in *.
  - destruct Hfl as (_ & _ & Hcomp). by apply Hcomp.
  - destruct Hfl as (_ & _ & Hnil).
    assert (i ∈ where_unfound (chip_has_found st)) as Hin
      by (eapply inv_unfound_iff; [apply Hinv|done]).
    rewrite Hnil in Hin. by apply elem_of_nil in Hin.
Qed.

End resolver_run.

(** ** What the resolver returns, point by point *)

Section resolver_results.
Context `{Camera} (pts : list Point2D) (dl : list (list Detector)) (allow : bool).
Hypothesis Hlen : length dl = length pts.

Lemma has_wavefront_true (l : list Detector) :
  has_wavefront l = true ↔ ∃ d, d ∈ l ∧ getType d = WAVEFRONT.
Proof using Type.
  forget_shape. unfold has_wavefront. induction l as [|x l IH]; simpl.
  - split; [done|]. intros (d & Hd & _). by apply elem_of_nil in Hd.
  - rewrite orb_true_iff, IH, bool_decide_eq_true. split.
    + intros [Hx|(d & Hd & Hw)]; [exists x|exists d]; split; try done; by constructor.
    + intros (d & [->|Hd]%elem_of_cons & Hw); [by left|right; by exists d].
Qed.

Lemma has_wavefront_ext (l l' : list Detector) :
  (∀ d, d ∈ l ↔ d ∈ l') → has_wavefront l = has_wavefront l'.
Proof using Type.
  forget_shape. intros Heq. apply eq_true_iff_eq. rewrite !has_wavefront_true.
  split; intros (d & Hd & Hw); exists d; (split; [by apply Heq|done]).
Qed.

Lemma elem_of_hits cd i d :
  d ∈ hits pts dl cd i ↔ d ∈ cd ∧ d ∈ row_of dl i ∧ on_chip pts d i = true.
Proof using Type. forget_shape. unfold hits. rewrite list_elem_of_filter. tauto. Qed.

Lemma on_chip_lookup d i p : pts !! i = Some p → on_chip pts d i = contains_point d p.
Proof using Type. forget_shape. unfold on_chip. by intros ->. Qed.

(** The entry of every point in the returned array. *)
Lemma resolver_entry fl i :
  findDetectorsListLSST_run pts dl allow = Ok fl → i < length pts →
  outputNameList (flow_val fl) !! i =
  Some (stringify_entry
          (entry_of (multi_eligible allow dl i)
                    (getName <$> hits pts dl (checked_detectors (flow_val fl)) i))).
Proof.
  intros Hrun Hi.
  destruct (resolver_run_spec pts dl allow Hlen) as (fl' & Hrun' & Hinv & _).
  rewrite Hrun in Hrun'. injection Hrun' as <-. by apply Hinv.
Qed.

Lemma resolver_checked_NoDup fl :
  findDetectorsListLSST_run pts dl allow = Ok fl →
  NoDup (checked_detectors (flow_val fl)).
Proof.
  intros Hrun.
  destruct (resolver_run_spec pts dl allow Hlen) as (fl' & Hrun' & Hinv & _).
  rewrite Hrun in Hrun'. injection Hrun' as <-. by apply Hinv.
Qed.

(** A candidate that contains a point the resolver left unresolved, or a
    multi-eligible point, is among the hits of the point. *)
Lemma hit_found fl i d :
  findDetectorsListLSST_run pts dl allow = Ok fl → i < length pts →
  d ∈ row_of dl i → on_chip pts d i = true →
  multi_eligible allow dl i = true ∨
    hits pts dl (checked_detectors (flow_val fl)) i = [] →
  d ∈ hits pts dl (checked_detectors (flow_val fl)) i.
Proof.
  intros Hrun Hi Hd Hon Hcase. apply elem_of_hits. split; [|done].
  apply (resolver_complete pts dl allow Hlen fl i Hrun Hi); [|done].
  unfold resolved_at.
  rewrite bool_decide_eq_false_2 by (intros E; rewrite E in Hd; by apply elem_of_nil in Hd).
  simpl. destruct Hcase as [Hm|Hh]; [by rewrite Hm|].
  rewrite Hh. rewrite (bool_decide_eq_false_2 ([] ≠ [])) by (intros ?; done).
  by rewrite andb_false_r.
Qed.

Lemma hits_filter_row cd i p :
  pts !! i = Some p →
  hits pts dl cd i =
  filter (λ d, contains_point d p = true) (filter (λ d, d ∈ row_of dl i) cd).
Proof using Type.
  forget_shape. intros Hp. unfold hits. rewrite list_filter_filter.
  apply list_filter_iff. intros d. rewrite (on_chip_lookup d i p Hp). tauto.
Qed.

Lemma NoDup_at_most_one {A} (l : list A) (d : A) :
  NoDup l → (∀ x, x ∈ l → x = d) → l = [] ∨ l = [d].
Proof using Type.
  forget_shape. intros Hnd Hall. destruct l as [|a [|b l]]; [by left|right|exfalso].
  - f_equal. apply Hall. by left.
  - assert (a = d) as -> by (apply Hall; by left).
    assert (b = d) as -> by (apply Hall; right; by left).
    apply NoDup_cons in Hnd as [Hin _]. apply Hin. by left.
Qed.

(** The entry of a point is that of the exhaustive test over its candidates
    taken in the order in which the detectors were checked. *)
Lemma entry_exhaustive_visited fl i p :
  findDetectorsListLSST_run pts dl allow = Ok fl → pts !! i = Some p →
  outputNameList (flow_val fl) !! i =
  Some (exhaustive_point allow p
          (filter (λ d, d ∈ row_of dl i) (checked_detectors (flow_val fl)))).
Proof.
  intros Hrun Hp. assert (Hi : i < length pts) by (by eapply lookup_lt_Some).
  rewrite (resolver_entry fl i Hrun Hi). unfold exhaustive_point.
  rewrite (hits_filter_row _ i p Hp). do 3 f_equal.
  unfold multi_eligible. destruct allow eqn:Hallow; [simpl|done].
  apply eq_true_iff_eq. rewrite !has_wavefront_true. split.
  - intros (d & Hd & Hw). exists d. split; [|done].
    apply list_elem_of_filter. split; [done|].
    apply (resolver_complete pts dl true Hlen fl i Hrun Hi); [|done].
    unfold resolved_at, multi_eligible. simpl.
    rewrite (proj2 (has_wavefront_true _)) by eauto.
    rewrite bool_decide_eq_false_2; [done|].
    intros E. rewrite E in Hd. by apply elem_of_nil in Hd.
  - intros (d & [Hd _]%list_elem_of_filter & Hw). eauto.
Qed.

(** For a point with at most one containing candidate the order of the
    candidates does not matter. *)
Lemma entry_exhaustive_row fl i p :
  findDetectorsListLSST_run pts dl allow = Ok fl → pts !! i = Some p →
  length (filter (λ d, contains_point d p = true) (row_of dl i)) ≤ 1 →
  outputNameList (flow_val fl) !! i = exhaustive allow pts dl !! i.
Proof.
  intros Hrun Hp Hone. assert (Hi : i < length pts) by (by eapply lookup_lt_Some).
  unfold exhaustive. rewrite lookup_zip_with, Hp. simpl.
  rewrite (row_of_lt pts dl Hlen i Hi). simpl.
  rewrite (resolver_entry fl i Hrun Hi). unfold exhaustive_point.
  fold (multi_eligible allow dl i). do 3 f_equal.
  set (cd := checked_detectors (flow_val fl)).
  assert (Hsub : ∀ d, d ∈ hits pts dl cd i →
                      d ∈ filter (λ d, contains_point d p = true) (row_of dl i)).
  { intros d (_ & Hd & Hon)%elem_of_hits. apply list_elem_of_filter.
    by rewrite <- (on_chip_lookup d i p Hp). }
  assert (Hnd : NoDup (hits pts dl cd i)).
  { apply NoDup_filter. by apply resolver_checked_NoDup. }
  destruct (filter (λ d, contains_point d p = true) (row_of dl i))
    as [|d [|d' F']] eqn:HF; [| |simpl in Hone; lia].
  - destruct (hits pts dl cd i) as [|d l]; [done|].
    specialize (Hsub d ltac:(left)). by apply elem_of_nil in Hsub.
  - destruct (NoDup_at_most_one (hits pts dl cd i) d Hnd) as [Hh|Hh].
    + intros x Hx. apply Hsub in Hx. by apply list_elem_of_singleton in Hx.
    + exfalso.
      assert (Hd : d ∈ filter (λ d, contains_point d p = true) (row_of dl i))
        by (rewrite HF; left).
      apply list_elem_of_filter in Hd as [Hon Hd].
      rewrite <- (on_chip_lookup d i p Hp) in Hon.
      pose proof (hit_found fl i d Hrun Hi Hd Hon (or_intror Hh)) as Hin.
      fold cd in Hin. rewrite Hh in Hin. by apply elem_of_nil in Hin.
    + by rewrite Hh.
Qed.

Lemma elem_of_visit_order (cd row : list Detector) d :
  d ∈ visit_order cd row ↔ d ∈ row.
Proof using Type.
  forget_shape. unfold visit_order. rewrite elem_of_app, !list_elem_of_filter.
  destruct (decide (d ∈ cd)); tauto.
Qed.

(** A candidate that contains the point was checked, unless the point is not
    multi-eligible and a checked candidate contains it. *)
Lemma containing_candidate_checked fl i p d :
  findDetectorsListLSST_run pts dl allow = Ok fl → pts !! i = Some p →
  d ∈ row_of dl i → contains_point d p = true →
  d ∈ checked_detectors (flow_val fl) ∨
  (multi_eligible allow dl i = false ∧
   ∃ d', d' ∈ checked_detectors (flow_val fl) ∧ d' ∈ row_of dl i ∧
         contains_point d' p = true).
Proof.
  intros Hrun Hp Hd Hc. assert (Hi : i < length pts) by (by eapply lookup_lt_Some).
  rewrite <- (on_chip_lookup d i p Hp) in Hc.
  destruct (multi_eligible allow dl i) eqn:Hm.
  { left. eapply elem_of_hits, (hit_found fl i d Hrun Hi Hd Hc). left. done. }
  destruct (hits pts dl (checked_detectors (flow_val fl)) i) as [|h t] eqn:Hh.
  - left. eapply elem_of_hits, (hit_found fl i d Hrun Hi Hd Hc). by right.
  - right. split; [done|]. exists h.
    assert (Hin : h ∈ hits pts dl (checked_detectors (flow_val fl)) i)
      by (rewrite Hh; left).
    apply elem_of_hits in Hin as (? & ? & Hon).
    by rewrite (on_chip_lookup h i p Hp) in Hon.
Qed.

(** The entry of a point is that of the exhaustive test over its whole
    candidate row, taken in the order of the resolver. *)
Lemma entry_exhaustive_order fl i p :
  findDetectorsListLSST_run pts dl allow = Ok fl → pts !! i = Some p →
  outputNameList (flow_val fl) !! i =
  Some (exhaustive_point allow p
          (visit_order (checked_detectors (flow_val fl)) (row_of dl i))).
Proof.
  intros Hrun Hp. assert (Hi : i < length pts) by (by eapply lookup_lt_Some).
  rewrite (resolver_entry fl i Hrun Hi). unfold exhaustive_point.
  rewrite (has_wavefront_ext (visit_order _ _) (row_of dl i))
    by apply elem_of_visit_order.
  fold (multi_eligible allow dl i). do 2 f_equal.
  unfold visit_order. rewrite filter_app, <- (hits_filter_row _ i p Hp).
  set (cd := checked_detectors (flow_val fl)).
  assert (Hrest : multi_eligible allow dl i = true ∨ hits pts dl cd i = [] →
            filter (λ d, contains_point d p = true)
                   (filter (λ d, d ∉ cd) (row_of dl i)) = []).
  { intros Hcase.
    destruct (filter (λ d, contains_point d p = true) _) as [|d r] eqn:E; [done|].
    exfalso.
    assert (Hd : d ∈ filter (λ d, contains_point d p = true)
                        (filter (λ d, d ∉ cd) (row_of dl i)))
      by (rewrite E; left).
    apply list_elem_of_filter in Hd as [Hc Hd].
    apply list_elem_of_filter in Hd as [Hn Hd]. apply Hn.
    rewrite <- (on_chip_lookup d i p Hp) in Hc.
    eapply elem_of_hits, (hit_found fl i d Hrun Hi Hd Hc Hcase). }
  destruct (multi_eligible allow dl i) eqn:Hm.
  - rewrite Hrest by (by left). by rewrite app_nil_r.
  - destruct (hits pts dl cd i) as [|h t] eqn:Hh.
    + rewrite Hrest by (by right). done.
    + done.
Qed.

Lemma visit_order_nil (cd : list Detector) : visit_order cd [] = [].
Proof using Type.
  forget_shape. unfold visit_order. rewrite filter_nil, app_nil_r.
  induction cd as [|d cd IH]; [done|].
  rewrite filter_cons, decide_False by apply not_elem_of_nil. done.
Qed.

(** The entry of a point is that of the exhaustive test over its whole
    candidate row, taken in the order in which the scan over the points
    checks the detectors. *)
Lemma entry_exhaustive_resolver_order fl i p :
  findDetectorsListLSST_run pts dl allow = Ok fl → pts !! i = Some p →
  outputNameList (flow_val fl) !! i =
  Some (exhaustive_point allow p
          (visit_order (resolver_order pts dl allow) (row_of dl i))).
Proof.
  intros Hrun Hp. assert (Hi : i < length pts) by (by eapply lookup_lt_Some).
  destruct (resolver_run_exact pts dl allow Hlen fl Hrun) as (_ & _ & Hpre & Heq).
  rewrite (entry_exhaustive_order fl i p Hrun Hp).
  destruct fl as [st|st]; [by rewrite <- (Heq st eq_refl)|].
  destruct (decide (row_of dl i = [])) as [E|E]; [by rewrite E, !visit_order_nil|].
  destruct (resolver_run_spec pts dl allow Hlen) as (fl' & Hrun' & Hinv & _ & _ & Hfl).
  rewrite Hrun in Hrun'. injection Hrun' as <-. cbn [flow_val] in *.
  destruct Hfl as (_ & _ & Hnil).
  assert (Hres : resolved_at pts dl allow (checked_detectors st) i = true).
  { apply not_false_iff_true. intros Hf.
    assert (i ∈ where_unfound (chip_has_found st)) as Hin
      by (by apply (inv_unfound_iff pts dl allow stringify_entry st)).
    rewrite Hnil in Hin. by apply elem_of_nil in Hin. }
  unfold resolved_at in Hres.
  rewrite (bool_decide_eq_false_2 _ E) in Hres. simpl in Hres.
  apply andb_true_iff in Hres as [Hm Hh]. apply negb_true_iff in Hm.
  apply bool_decide_eq_true in Hh.
  f_equal. unfold exhaustive_point.
  rewrite !(has_wavefront_ext (visit_order _ _) (row_of dl i))
    by apply elem_of_visit_order.
  fold (multi_eligible allow dl i). rewrite Hm. f_equal.
  destruct Hpre as [k Hk]. unfold visit_order. rewrite Hk, !filter_app.
  rewrite <- !(hits_filter_row (checked_detectors st) i p Hp).
  destruct (hits pts dl (checked_detectors st) i) as [|h t]; done.
Qed.

End resolver_results.

(** ** The claims on the resolver *)

(** C1, as stated, fails: the resolver does not return what the exhaustive
    test of every point against its candidate list, point by point, returns.
    Point 1 lies on both B and A and lists them in this order; the resolver
    checks A first, for point 0, and reports A, the exhaustive test B. *)
Lemma exhaustive_order_counterexample :
  _findDetectorsListLSST [Toy.pt 20 20; Toy.pt 7 25] [[Toy.A]; [Toy.B; Toy.A]] false
  ≠ Ok (exhaustive false [Toy.pt 20 20; Toy.pt 7 25] [[Toy.A]; [Toy.B; Toy.A]]).
Proof. vm_compute. intros [=]. Qed.

(** C1 (amended): for every batch of points with one candidate row per point
    and every value of allow_multiple_chips, the resolver returns one entry
    per point, and the entry of a point is the result of testing it
    exhaustively against all the detectors of its candidate row, taken in
    the order in which the resolver visits the detectors: the scan over the
    points skips the rows of points already resolved and checks the new
    detectors of every other row, and the candidates it never reaches come
    last.  The detectors the call has checked are a prefix of that order,
    and a candidate that contains the point was checked, unless the point
    is not multi-eligible and a checked candidate contains it.  For a point
    that at most one candidate of its row contains, the entry is the result
    of the exhaustive test of the row as it stands. *)
Theorem resolver_refines_exhaustive `{Camera} (pts : list Point2D)
    (dl : list (list Detector)) (allow : bool) :
  length dl = length pts →
  ∃ fl,
    findDetectorsListLSST_run pts dl allow = Ok fl ∧
    _findDetectorsListLSST pts dl allow = Ok (outputNameList (flow_val fl)) ∧
    length (outputNameList (flow_val fl)) = length pts ∧
    NoDup (checked_detectors (flow_val fl)) ∧
    checked_detectors (flow_val fl) `prefix_of` resolver_order pts dl allow ∧
    ∀ i p, pts !! i = Some p →
      (∀ d, d ∈ visit_order (resolver_order pts dl allow) (row_of dl i) ↔
            d ∈ row_of dl i) ∧
      outputNameList (flow_val fl) !! i =
        Some (exhaustive_point allow p
                (visit_order (resolver_order pts dl allow) (row_of dl i))) ∧
      outputNameList (flow_val fl) !! i =
        Some (exhaustive_point allow p
                (visit_order (checked_detectors (flow_val fl)) (row_of dl i))) ∧
      (∀ d, d ∈ row_of dl i → contains_point d p = true →
         d ∈ checked_detectors (flow_val fl) ∨
         (multi_eligible allow dl i = false ∧
          ∃ d', d' ∈ checked_detectors (flow_val fl) ∧ d' ∈ row_of dl i ∧
                contains_point d' p = true)) ∧
      outputNameList (flow_val fl) !! i =
        Some (exhaustive_point allow p
                (filter (λ d, d ∈ row_of dl i) (checked_detectors (flow_val fl)))) ∧
      (length (filter (λ d, contains_point d p = true) (row_of dl i)) ≤ 1 →
       outputNameList (flow_val fl) !! i = exhaustive allow pts dl !! i).
Proof.
  intros Hlen.
  destruct (resolver_run_spec pts dl allow Hlen) as (fl & Hrun & Hinv & _).
  exists fl. split; [done|]. split.
  { unfold _findDetectorsListLSST. by rewrite Hrun. }
  split; [apply Hinv|]. split; [apply Hinv|].
  split; [by apply (resolver_run_exact pts dl allow Hlen fl Hrun)|].
  intros i p Hp.
  split; [intros d; apply elem_of_visit_order|].
  split; [by apply (entry_exhaustive_resolver_order pts dl allow Hlen)|].
  split; [by apply (entry_exhaustive_order pts dl allow Hlen)|].
  split; [intros d; by apply (containing_candidate_checked pts dl allow Hlen)|].
  split.
  - by apply (entry_exhaustive_visited pts dl allow Hlen).
  - by apply (entry_exhaustive_row pts dl allow Hlen).
Qed.

Lemma resolver_refines_exhaustive_witness :
  ∃ out,
    _findDetectorsListLSST [Toy.pt 20 20; Toy.pt 7 25] [[Toy.A]; [Toy.B; Toy.A]] false
    = Ok out ∧
    out !! 0 = exhaustive false [Toy.pt 20 20; Toy.pt 7 25] [[Toy.A]; [Toy.B; Toy.A]] !! 0.
Proof.
  destruct (@resolver_refines_exhaustive Toy.camera [Toy.pt 20 20; Toy.pt 7 25]
              [[Toy.A]; [Toy.B; Toy.A]] false eq_refl)
    as (fl & _ & Hout & _ & _ & _ & Hent).
  exists (outputNameList (flow_val fl)). split; [exact Hout|].
  destruct (Hent 0 (Toy.pt 20 20) eq_refl) as (_ & _ & _ & _ & _ & Hrow).
  apply Hrow. vm_compute. lia.
Defined.

(** C2, as stated, fails: a point whose single containing detector is a
    wavefront sensor gets, with allow_multiple_chips=True, the plain name of
    that sensor, not a list of names. *)
Lemma overlap_single_hit_counterexample :
  filter (λ d, contains_point d (Toy.pt 22 5) = true) [Toy.W0; Toy.W1] = [Toy.W0] ∧
  getType Toy.W0 = WAVEFRONT ∧
  _findDetectorsListLSST [Toy.pt 22 5] [[Toy.W0; Toy.W1]] true = Ok [PyStr "W0"] ∧
  PyStr "W0" ≠ PyStr (py_str_list [getName Toy.W0]).
Proof. vm_compute. repeat split; done. Qed.

(** C2 (amended): for every point with a containing candidate, all of whose
    containing candidates are wavefront sensors: with
    allow_multiple_chips=False the entry is the name of the first checked
    containing candidate; with allow_multiple_chips=True the containing
    candidates are all found, and the entry is the name of the detector
    when there is one and the string of the list of their names, in the
    order in which the detectors were checked, when there are more. *)
Theorem overlap_point_result `{Camera} (pts : list Point2D)
    (dl : list (list Detector)) (allow : bool) (i : nat) (p : Point2D) :
  length dl = length pts → pts !! i = Some p →
  Forall (λ d, contains_point d p = true → getType d = WAVEFRONT) (row_of dl i) →
  Exists (λ d, contains_point d p = true) (row_of dl i) →
  ∃ fl found,
    findDetectorsListLSST_run pts dl allow = Ok fl ∧
    found = hits pts dl (checked_detectors (flow_val fl)) i ∧
    found ≠ [] ∧
    outputNameList (flow_val fl) !! i =
      Some (if allow then
              match found with
              | [d] => PyStr (getName d)
              | _ => PyStr (py_str_list (getName <$> found))
              end
            else
              match found with
              | d :: _ => PyStr (getName d)
              | [] => PyNone
              end) ∧
    (allow = true →
     ∀ d, d ∈ found ↔ d ∈ row_of dl i ∧ contains_point d p = true).
Proof.
  intros Hlen Hp Hwave Hex.
  assert (Hi : i < length pts) by (by eapply lookup_lt_Some).
  destruct (resolver_run_spec pts dl allow Hlen) as (fl & Hrun & Hinv & _).
  apply Exists_exists in Hex as (d0 & Hd0 & Hc0).
  rewrite Forall_forall in Hwave.
  assert (Hmulti : multi_eligible allow dl i = allow).
  { unfold multi_eligible. destruct allow; [simpl|done].
    apply has_wavefront_true. exists d0. split; [done|]. by apply Hwave. }
  assert (Hfound : ∀ d, d ∈ row_of dl i → contains_point d p = true →
                     allow = true ∨ hits pts dl (checked_detectors (flow_val fl)) i = [] →
                     d ∈ hits pts dl (checked_detectors (flow_val fl)) i).
  { intros d Hd Hc Hcase. apply (hit_found pts dl allow Hlen fl i d Hrun Hi Hd).
    - by rewrite (on_chip_lookup pts d i p Hp).
    - rewrite Hmulti. done. }
  assert (Hne : hits pts dl (checked_detectors (flow_val fl)) i ≠ []).
  { intros E. specialize (Hfound d0 Hd0 Hc0 (or_intror E)).
    rewrite E in Hfound. by apply elem_of_nil in Hfound. }
  exists fl, (hits pts dl (checked_detectors (flow_val fl)) i).
  split; [done|]. split; [done|]. split; [done|]. split.
  - rewrite (resolver_entry pts dl allow Hlen fl i Hrun Hi), Hmulti.
    destruct allow; simpl.
    + by destruct (hits pts dl (checked_detectors (flow_val fl)) i) as [|a [|b l]].
    + by destruct (hits pts dl (checked_detectors (flow_val fl)) i) as [|a l].
  - intros Hallow d. split.
    + intros (_ & Hd & Hon)%elem_of_hits.
      by rewrite <- (on_chip_lookup pts d i p Hp).
    + intros [Hd Hc]. apply Hfound; auto.
Qed.

Lemma overlap_point_result_witness :
  ∃ fl, findDetectorsListLSST_run [Toy.pt 27 5] [[Toy.W0; Toy.W1]] true = Ok fl ∧
        outputNameList (flow_val fl) !! 0 = Some (PyStr "['W0', 'W1']").
Proof.
  destruct (@overlap_point_result Toy.camera [Toy.pt 27 5] [[Toy.W0; Toy.W1]] true 0
              (Toy.pt 27 5) eq_refl eq_refl)
    as (fl & found & Hrun & Hfound & _ & Hout & _).
  - repeat constructor.
  - constructor. reflexivity.
  - exists fl. split; [exact Hrun|]. rewrite Hout, Hfound.
    vm_compute in Hrun. injection Hrun as <-. reflexivity.
Defined.

(** C3, as stated, fails: detector X is a candidate of point 1 and is never
    visited, although no detector pass ever found the number of points
    searched for to be zero.  Point 1 was found on A before its row was
    reached, and the row of a found point is not scanned: the detectors are
    visited in the order A, Y, which is not a prefix of A, X, Y, the order
    in which the candidate rows meet them. *)
Lemma unvisited_detector_counterexample :
  ∃ st,
    findDetectorsListLSST_run [Toy.pt 20 20; Toy.pt 7 25; Toy.pt 0 0]
      [[Toy.A]; [Toy.A; Toy.X]; [Toy.Y]] false = Ok (Continue st) ∧
    checked_detectors st = [Toy.A; Toy.Y] ∧
    v_detector <$> visits st = [Toy.A; Toy.Y] ∧
    Forall (λ v, v_unfound v ≠ []) (visits st) ∧
    first_seen (mjoin [[Toy.A]; [Toy.A; Toy.X]; [Toy.Y]]) = [Toy.A; Toy.X; Toy.Y].
Proof.
  eexists. split; [vm_compute; reflexivity|]. simpl.
  repeat split; try done. repeat constructor; done.
Qed.

(** C3 (amended): during one call on one candidate row per point, no
    detector is visited twice, and a visit applies the detector's transform
    to the points still searched for that list the detector, so at most once
    per detector; the points a visit finds still searched for are exactly
    those that the detectors visited before it left unresolved.  The row of
    a point is scanned exactly when the point is still unresolved when the
    scan reaches it, in the order of the points, and the detectors are
    visited in the order in which the scanned rows first meet them, which
    is the order of the scan that skips the rows of resolved points: a
    visited detector is a candidate of a point whose row was scanned, so a
    detector listed only by points already resolved when reached is never
    visited.  On the final return every candidate of a point still searched
    for has been visited.  A visit that finds no point searched for applies
    no transform and is the last one: the function returns there. *)
Theorem visitation_order `{Camera} (pts : list Point2D)
    (dl : list (list Detector)) (allow : bool) :
  length dl = length pts →
  ∃ fl,
    findDetectorsListLSST_run pts dl allow = Ok fl ∧
    NoDup (checked_detectors (flow_val fl)) ∧
    trace_inv pts dl (flow_val fl) ∧
    unfound_exact pts dl allow (flow_val fl) ∧
    scan_ok dl (length pts) (scanned (flow_val fl)) ∧
    scan_exact pts dl allow (length pts) (scanned (flow_val fl)) ∧
    (∀ d, d ∈ checked_detectors (flow_val fl) →
          ∃ i, i ∈ scanned (flow_val fl) ∧ d ∈ row_of dl i) ∧
    checked_detectors (flow_val fl) `prefix_of` resolver_order pts dl allow ∧
    (∀ st, fl = Continue st → checked_detectors st = resolver_order pts dl allow) ∧
    match fl with
    | Continue st =>
        live st ∧
        checked_detectors st = first_seen (scanned_rows dl (scanned st)) ∧
        complete pts dl allow (length pts) st
    | Return st =>
        early_exit_trace st ∧
        checked_detectors st `prefix_of`
          first_seen (scanned_rows dl (scanned st)) ∧
        where_unfound (chip_has_found st) = []
    end.
Proof.
  intros Hlen.
  destruct (resolver_run_spec pts dl allow Hlen) as (fl & Hrun & Hinv & Htr & Hsc & Hfl).
  destruct (resolver_run_exact pts dl allow Hlen fl Hrun) as (Hex & Hsx & Hpre & Heq).
  exists fl. split; [done|]. split; [apply Hinv|]. split; [done|].
  split; [done|]. split; [done|]. split; [done|]. split.
  { intros d Hd. by apply (checked_scanned pts dl allow Hlen). }
  split; [done|]. split; [done|]. done.
Qed.

Lemma visitation_order_witness :
  ∃ fl,
    findDetectorsListLSST_run [Toy.pt 20 20; Toy.pt 7 25; Toy.pt 0 0]
      [[Toy.A]; [Toy.A; Toy.X]; [Toy.Y]] false = Ok fl ∧
    NoDup (checked_detectors (flow_val fl)) ∧
    1 ∉ scanned (flow_val fl).
Proof.
  destruct (@visitation_order Toy.camera [Toy.pt 20 20; Toy.pt 7 25; Toy.pt 0 0]
              [[Toy.A]; [Toy.A; Toy.X]; [Toy.Y]] false eq_refl)
    as (fl & Hrun & Hnd & _ & _ & _ & Hsx & _).
  exists fl. split; [exact Hrun|]. split; [exact Hnd|].
  intros Hin. apply (Hsx 1) in Hin; [|simpl; lia].
  vm_compute in Hrun. injection Hrun as <-. vm_compute in Hin. discriminate Hin.
Defined.

(** C10: for every multi-eligible point that two distinct candidates of its
    row contain, the entry of the returned array is the string rendering of
    the list of the names of the candidates that contain it, in the order in
    which the detectors were checked; no entry of the returned array is a
    list, on the final return and on the early exit alike. *)
Theorem multiple_entry_is_string `{Camera} (pts : list Point2D)
    (dl : list (list Detector)) (allow : bool) (i : nat) (p : Point2D)
    (d1 d2 : Detector) :
  length dl = length pts → pts !! i = Some p →
  multi_eligible allow dl i = true →
  d1 ∈ row_of dl i → d2 ∈ row_of dl i → d1 ≠ d2 →
  contains_point d1 p = true → contains_point d2 p = true →
  ∃ fl found,
    findDetectorsListLSST_run pts dl allow = Ok fl ∧
    _findDetectorsListLSST pts dl allow = Ok (outputNameList (flow_val fl)) ∧
    found = hits pts dl (checked_detectors (flow_val fl)) i ∧
    2 ≤ length found ∧
    (∀ d, d ∈ found ↔ d ∈ row_of dl i ∧ contains_point d p = true) ∧
    outputNameList (flow_val fl) !! i =
      Some (PyStr (py_str_list (getName <$> found))) ∧
    (∀ j l, outputNameList (flow_val fl) !! j ≠ Some (PyList l)).
Proof.
  intros Hlen Hp Hmulti Hd1 Hd2 Hne Hc1 Hc2.
  assert (Hi : i < length pts) by (by eapply lookup_lt_Some).
  destruct (resolver_run_spec pts dl allow Hlen) as (fl & Hrun & Hinv & _).
  set (found := hits pts dl (checked_detectors (flow_val fl)) i).
  assert (Hall : ∀ d, d ∈ found ↔ d ∈ row_of dl i ∧ contains_point d p = true).
  { intros d. split.
    - intros (_ & Hd & Hon)%elem_of_hits.
      by rewrite <- (on_chip_lookup pts d i p Hp).
    - intros [Hd Hc]. apply (hit_found pts dl allow Hlen fl i d Hrun Hi Hd).
      + by rewrite (on_chip_lookup pts d i p Hp).
      + by left. }
  assert (Hlen2 : 2 ≤ length found).
  { pose proof (proj2 (Hall d1) (conj Hd1 Hc1)) as H1.
    pose proof (proj2 (Hall d2) (conj Hd2 Hc2)) as H2.
    destruct found as [|a [|b l]]; simpl; [by apply elem_of_nil in H1| |lia].
    apply list_elem_of_singleton in H1, H2. congruence. }
  exists fl, found. split; [done|]. split.
  { unfold _findDetectorsListLSST. by rewrite Hrun. }
  split; [done|]. split; [done|]. split; [done|]. split.
  - rewrite (resolver_entry pts dl allow Hlen fl i Hrun Hi), Hmulti. fold found.
    destruct found as [|a [|b l]]; simpl in *; [lia|lia|done].
  - intros j l Hj.
    assert (Hjn : j < length pts).
    { apply lookup_lt_Some in Hj. by rewrite (inv_len_out _ _ _ _ _ Hinv) in Hj. }
    rewrite (inv_out _ _ _ _ _ Hinv j Hjn) in Hj. injection Hj as Hj.
    by destruct (entry_of _ _).
Qed.

Lemma multiple_entry_is_string_witness :
  ∃ fl, findDetectorsListLSST_run [Toy.pt 27 5] [[Toy.W0; Toy.W1]] true = Ok fl ∧
        outputNameList (flow_val fl) !! 0 =
        Some (PyStr (py_str_list ["W0"; "W1"])).
Proof.
  destruct (@multiple_entry_is_string Toy.camera [Toy.pt 27 5] [[Toy.W0; Toy.W1]]
              true 0 (Toy.pt 27 5) Toy.W0 Toy.W1 eq_refl eq_refl eq_refl)
    as (fl & found & Hrun & _ & Hfound & _ & _ & Hout & _).
  - left.
  - right; left.
  - discriminate.
  - reflexivity.
  - reflexivity.
  - exists fl. split; [exact Hrun|]. rewrite Hout, Hfound.
    vm_compute in Hrun. injection Hrun as <-. reflexivity.
Defined.

(** ** The index builder *)

Lemma traverse_inv {A B} (f : A → result B) (l : list A) (r : list B) :
  traverse f l = Ok r → Forall2 (λ a b, f a = Ok b) l r.
Proof.
  revert r. induction l as [|a l IH]; simpl; intros r Hr.
  - injection Hr as <-. constructor.
  - destruct (f a) as [b|] eqn:Hb; [simpl in Hr|done].
    destruct (traverse f l) as [bs|]; [simpl in Hr|done].
    injection Hr as <-. constructor; [done|by apply IH].
Qed.

Lemma traverse_seq {A B} (f : nat → result B) (h : A → B) (l : list A) s :
  (∀ k a, l !! k = Some a → f (s + k) = Ok (h a)) →
  traverse f (seq s (length l)) = Ok (h <$> l).
Proof.
  revert s. induction l as [|a l IH]; intros s Hf; [done|]. simpl.
  rewrite <- (Nat.add_0_r s) at 1. rewrite (Hf 0 a eq_refl). simpl.
  rewrite IH; [done|]. intros k b Hk.
  replace (S s + k) with (s + S k) by lia. by apply Hf.
Qed.

Lemma bind_lookup_4 {A B} (f : A → list B) (l : list A) k j a :
  Forall (λ a, length (f a) = 4) l → l !! k = Some a → j < 4 →
  (l ≫= f) !! (k * 4 + j) = f a !! j.
Proof.
  revert k. induction l as [|a0 l IH]; intros k Hall Hk Hj; [done|].
  apply Forall_cons in Hall as [H0 Hall]. rewrite bind_cons.
  destruct k as [|k]; simpl in Hk.
  - injection Hk as ->. simpl. apply lookup_app_l. lia.
  - rewrite lookup_app_r by lia. rewrite H0.
    replace (S k * 4 + j - 4) with (k * 4 + j) by lia. by apply IH.
Qed.

Lemma bind_ret_fmap {A B} (h : A → B) (l : list A) : (l ≫= λ x, [h x]) = h <$> l.
Proof. induction l as [|a l IH]; [done|]. rewrite bind_cons, IH. done. Qed.

Section index_facts.
Context `{Camera}.
Hypothesis Hcam : camera_ok.

Lemma corners_4 : Forall (λ c, length (getCornerPixels (getName c)) = 4) camera_chips.
Proof. eapply Forall_impl; [exact Hcam|]. simpl. tauto. Qed.

(** The three flat lists, read four entries per chip. *)
Lemma flat_lookup k j c corner :
  camera_chips !! k = Some c → getCornerPixels (getName c) !! j = Some corner →
  name_list !! (k * 4 + j) = Some (getName c) ∧
  x_pix_list !! (k * 4 + j) = Some corner.1 ∧
  y_pix_list !! (k * 4 + j) = Some corner.2.
Proof.
  intros Hk Hj.
  assert (Hj4 : j < 4).
  { apply lookup_lt_Some in Hj. pose proof corners_4 as Hc.
    rewrite Forall_forall in Hc. rewrite Hc in Hj; [done|].
    by eapply list_elem_of_lookup_2. }
  assert (Hlen4 : ∀ B (h : Detector → float * float → B),
            Forall (λ a, length (getCornerPixels (getName a) ≫= λ x, [h a x]) = 4)
                   camera_chips).
  { intros B h. eapply Forall_impl; [exact corners_4|]. simpl. intros a Ha.
    by rewrite bind_ret_fmap, length_fmap. }
  unfold name_list, x_pix_list, y_pix_list.
  rewrite (bind_lookup_4 _ camera_chips k j c (Hlen4 _ (λ a _, getName a)) Hk Hj4).
  rewrite (bind_lookup_4 _ camera_chips k j c (Hlen4 _ (λ _ x, x.1)) Hk Hj4).
  rewrite (bind_lookup_4 _ camera_chips k j c (Hlen4 _ (λ _ x, x.2)) Hk Hj4).
  by rewrite !bind_ret_fmap, !list_lookup_fmap, Hj.
Qed.

(** The batch transform of the flat lists, read four entries per chip. *)
Lemma pup_lookup k j c corner :
  camera_chips !! k = Some c → getCornerPixels (getName c) !! j = Some corner →
  let pup := pupilCoordsFromPixelCoords x_pix_list y_pix_list name_list in
  pup.1 !! (k * 4 + j) = Some (pupilFromPixel (getName c) corner).1 ∧
  pup.2 !! (k * 4 + j) = Some (pupilFromPixel (getName c) corner).2.
Proof.
  intros Hk Hj. destruct (flat_lookup k j c corner Hk Hj) as (Hn & Hx & Hy).
  unfold pupilCoordsFromPixelCoords. simpl.
  rewrite !list_lookup_fmap, !lookup_zip_with, Hn, Hx, Hy. simpl.
  by destruct corner.
Qed.

(** The body of the second loop of the builder computes the entry of the
    chip of index [ix_ct] from the corners of that chip. *)
Lemma build_entry_ok k c :
  camera_chips !! k = Some c →
  let pup := pupilCoordsFromPixelCoords x_pix_list y_pix_list name_list in
  build_entry name_list pup.1 pup.2 k = Ok (index_entry c).
Proof.
  intros Hk pup.
  assert (Hc4 : length (getCornerPixels (getName c)) = 4).
  { pose proof corners_4 as Hc. rewrite Forall_forall in Hc. apply Hc.
    by eapply list_elem_of_lookup_2. }
  destruct (getCornerPixels (getName c)) as [|c0 [|c1 [|c2 [|c3 [|]]]]] eqn:Hcorners;
    try discriminate. clear Hc4.
  assert (Hget : ∀ j corner, [c0; c1; c2; c3] !! j = Some corner →
            getitem name_list (k * 4 + j) = Ok (getName c) ∧
            getitem pup.1 (k * 4 + j) = Ok (pupilFromPixel (getName c) corner).1 ∧
            getitem pup.2 (k * 4 + j) = Ok (pupilFromPixel (getName c) corner).2).
  { intros j corner Hj. rewrite <- Hcorners in Hj.
    destruct (flat_lookup k j c corner Hk Hj) as (Hn & _).
    destruct (pup_lookup k j c corner Hk Hj) as (Hx & Hy).
    rewrite !getitem_Ok. done. }
  destruct (Hget 0 c0 eq_refl) as (Hn0 & Hx0 & Hy0).
  destruct (Hget 1 c1 eq_refl) as (_ & Hx1 & Hy1).
  destruct (Hget 2 c2 eq_refl) as (_ & Hx2 & Hy2).
  destruct (Hget 3 c3 eq_refl) as (_ & Hx3 & Hy3).
  unfold build_entry. cbn [seq traverse].
  rewrite Hx1, Hx2, Hx3, Hy1, Hy2, Hy3, Hx0, Hy0.
  rewrite Nat.add_0_r in Hn0, Hx0, Hy0. rewrite Hn0, Hx0, Hy0.
  unfold index_entry, pupil_corners. rewrite Hcorners. reflexivity.
Qed.

(** The builder returns the entries of the chips, in the order of the
    camera. *)
Lemma build_map_ok :
  _build_lsst_pupil_coord_map =
  Ok (mkPupilMap (getName <$> camera_chips)
                 ((λ c, (centroid (pupil_corners c)).1) <$> camera_chips)
                 ((λ c, (centroid (pupil_corners c)).2) <$> camera_chips)
                 ((λ c, mean_distance (centroid (pupil_corners c)) (pupil_corners c))
                    <$> camera_chips)).
Proof.
  pose proof build_entry_ok as Hent.
  unfold _build_lsst_pupil_coord_map, pupilCoordsFromPixelCoords in *.
  cbn beta iota zeta in *. cbn [fst snd] in Hent.
  rewrite (traverse_seq _ index_entry camera_chips 0) by (intros k a Hk; by apply Hent).
  simpl. by rewrite <- !list_fmap_compose.
Qed.

Lemma traverse_getitem_names (l : list Detector) :
  Forall (λ c, camera_getitem (getName c) = Ok c) l →
  traverse camera_getitem (getName <$> l) = Ok l.
Proof.
  induction 1 as [|c l Hc _ IH]; [done|].
  rewrite fmap_cons. cbn [traverse]. rewrite Hc. cbn [mbind result_bind].
  by rewrite IH.
Qed.

(** The attributes cached by the lookup: the index and the detectors in the
    order of the camera. *)
Lemma build_attrs_ok :
  ∃ a, build_attrs = Ok a ∧ _detector_arr a = camera_chips ∧
       _build_lsst_pupil_coord_map = Ok (_pupil_map a) ∧ attrs_ok a.
Proof.
  unfold build_attrs. rewrite build_map_ok. simpl.
  rewrite traverse_getitem_names.
  2:{ eapply Forall_impl; [exact Hcam|]. simpl. tauto. }
  simpl. eexists. split; [done|]. split; [done|]. split; [done|].
  unfold attrs_ok. simpl. by rewrite !length_fmap.
Qed.

End index_facts.

(** ** The candidate filter and the lookup *)

Lemma traverse_total {A B} (f : A → result B) (l : list A) :
  Forall (λ a, ∃ b, f a = Ok b) l → ∃ r, traverse f l = Ok r.
Proof.
  induction 1 as [|a l [b Hb] _ [r IH]]; [by exists []|].
  exists (b :: r). simpl. by rewrite Hb, IH.
Qed.

Section lookup_facts.
Context `{Camera}.

Lemma elem_of_possible_dexes (m : pupil_coord_map) xx yy j :
  j ∈ possible_dexes m xx yy ↔ within_radius m xx yy j.
Proof.
  unfold possible_dexes, within_radius, dist_sq, rrsq_lim.
  rewrite elem_of_np_where, !lookup_zip_with, list_lookup_fmap.
  destruct (map_xx m !! j) as [xc|]; simpl.
  2:{ split; [done|]. by intros (? & ? & ? & ? & _). }
  destruct (map_yy m !! j) as [yc|]; simpl.
  2:{ split; [done|]. by intros (? & ? & ? & _ & ? & _). }
  destruct (map_dp m !! j) as [r|]; simpl.
  2:{ split; [done|]. by intros (? & ? & ? & _ & _ & ? & _). }
  split.
  - intros [= Hlt]. by exists xc, yc, r.
  - intros (? & ? & ? & [= <-] & [= <-] & [= <-] & Hlt). by rewrite Hlt.
Qed.

Lemma take_items_inv {A} (arr : list A) dexes row :
  take_items arr dexes = Ok row →
  ∀ d, d ∈ row ↔ ∃ j, j ∈ dexes ∧ arr !! j = Some d.
Proof.
  intros Hrow%traverse_inv d. split.
  - intros Hd. destruct (list_elem_of_lookup_1 _ _ Hd) as [k Hk].
    destruct (Forall2_lookup_r _ _ _ _ _ Hrow Hk) as (j & Hj & Hget).
    exists j. split; [by eapply list_elem_of_lookup_2|by apply getitem_Ok].
  - intros (j & Hj & Hget). destruct (list_elem_of_lookup_1 _ _ Hj) as [k Hk].
    destruct (Forall2_lookup_l _ _ _ _ _ Hrow Hk) as (d' & Hd' & Hget').
    apply getitem_Ok in Hget'. rewrite Hget in Hget'. injection Hget' as <-.
    by eapply list_elem_of_lookup_2.
Qed.

(** The candidate row of one point. *)
Lemma valid_detectors_row_spec (a : lookup_attrs) (is_okay : list bool) i x y ok :
  attrs_ok a → is_okay !! i = Some ok →
  ∃ row, valid_detectors_row a is_okay i (x, y) = Ok row ∧
    (ok = false → row = []) ∧
    (ok = true → ∀ d, d ∈ row ↔
       ∃ j, _detector_arr a !! j = Some d ∧ within_radius (_pupil_map a) x y j).
Proof.
  intros (_ & _ & Hdp) Hok. unfold valid_detectors_row.
  apply getitem_Ok in Hok. rewrite Hok. simpl. destruct ok; simpl.
  - destruct (traverse_total (getitem (_detector_arr a))
                (possible_dexes (_pupil_map a) x y)) as [row Hrow].
    { apply Forall_forall. intros j Hj%elem_of_possible_dexes.
      destruct Hj as (_ & _ & r & _ & _ & Hr & _). apply lookup_lt_Some in Hr.
      destruct (getitem_lt (_detector_arr a) j) as (d & Hd & _); [lia|eauto]. }
    exists row. split; [done|]. split; [done|]. intros _ d.
    rewrite (take_items_inv _ _ _ Hrow). setoid_rewrite elem_of_possible_dexes.
    split; intros (j & ? & ?); exists j; done.
  - exists []. done.
Qed.

(** The candidate rows of a batch: one per point. *)
Lemma valid_detectors_of_spec (a : lookup_attrs) (xs ys : list float) :
  attrs_ok a →
  let pts := zip_with mkPoint2D xs ys in
  ∃ vd, valid_detectors_of a (is_okay_of (_camera_bbox a) pts) xs ys = Ok vd ∧
    length vd = length pts ∧
    ∀ i x y, xs !! i = Some x → ys !! i = Some y →
      ∃ row, vd !! i = Some row ∧
        (Box2D_contains (_camera_bbox a) (mkPoint2D x y) = false → row = []) ∧
        (Box2D_contains (_camera_bbox a) (mkPoint2D x y) = true →
         ∀ d, d ∈ row ↔
           ∃ j, _detector_arr a !! j = Some d ∧ within_radius (_pupil_map a) x y j).
Proof.
  intros Ha pts.
  assert (Hok : ∀ i x y, xs !! i = Some x → ys !! i = Some y →
            is_okay_of (_camera_bbox a) pts !! i =
            Some (Box2D_contains (_camera_bbox a) (mkPoint2D x y))).
  { intros i x y Hx Hy. unfold is_okay_of, pts.
    by rewrite list_lookup_fmap, lookup_zip_with, Hx, Hy. }
  destruct (traverse_total
              (λ p, valid_detectors_row a (is_okay_of (_camera_bbox a) pts) p.1 p.2)
              (imap pair (zip xs ys))) as [vd Hvd].
  { apply Forall_forall. intros q Hin.
    apply list_elem_of_lookup_1 in Hin as [k Hk].
    rewrite list_lookup_imap in Hk.
    destruct (zip xs ys !! k) as [p|] eqn:Hz; [|done].
    simpl in Hk. injection Hk as <-.
    apply lookup_zip_with_Some in Hz as (x0 & y0 & -> & Hx & Hy).
    destruct (valid_detectors_row_spec a _ k x0 y0 _ Ha (Hok k x0 y0 Hx Hy))
      as (row & Hrow & _). eauto. }
  exists vd. split; [done|].
  apply traverse_inv in Hvd. split.
  { rewrite <- (Forall2_length _ _ _ Hvd), length_imap.
    unfold pts. by rewrite !length_zip_with. }
  intros i x y Hx Hy.
  assert (Hi : imap pair (zip xs ys) !! i = Some (i, (x, y))).
  { by rewrite list_lookup_imap, lookup_zip_with, Hx, Hy. }
  destruct (Forall2_lookup_l _ _ _ _ _ Hvd Hi) as (row & Hrow & Hrun).
  simpl in Hrun. exists row. split; [done|].
  destruct (valid_detectors_row_spec a _ i x y _ Ha (Hok i x y Hx Hy))
    as (row' & Hrun' & Hout & Hin).
  rewrite Hrun in Hrun'. injection Hrun' as <-. done.
Qed.

End lookup_facts.

Section lookup_body_facts.
Context `{Camera}.

Lemma same_shape_refl a : same_shape a a = true.
Proof. destruct a; simpl; [done|]. by apply bool_decide_eq_true. Qed.

Lemma validate_pair xP yP nx ny meth :
  _validate_inputs [xP; yP] [nx; ny] meth =
  if same_shape xP yP then Ok (is_array xP)
  else Raise (RuntimeError (meth +:+ ": mismatched " +:+ ny)).
Proof.
  unfold _validate_inputs. cbn [zip zip_with].
  rewrite !filter_cons, filter_nil. cbn [fst].
  rewrite same_shape_refl. rewrite (decide_False (P := true = false)) by done.
  destruct (same_shape xP yP).
  - rewrite (decide_False (P := true = false)) by done. done.
  - rewrite (decide_True (P := false = false)) by done. done.
Qed.

Lemma coords_length xP yP :
  same_shape xP yP = true → length (coords xP xP) = length (coords xP yP).
Proof.
  unfold coords. destruct xP, yP; simpl; try done.
  by intros ->%bool_decide_eq_true.
Qed.

Lemma valid_detectors_of_inv (a : lookup_attrs) (xs ys : list float) vd :
  let pts := zip_with mkPoint2D xs ys in
  valid_detectors_of a (is_okay_of (_camera_bbox a) pts) xs ys = Ok vd →
  length vd = length pts ∧
  ∀ i x y, xs !! i = Some x → ys !! i = Some y →
    ∃ row, vd !! i = Some row ∧
      (Box2D_contains (_camera_bbox a) (mkPoint2D x y) = false → row = []).
Proof.
  intros pts Hvd%traverse_inv. split.
  { rewrite <- (Forall2_length _ _ _ Hvd), length_imap.
    unfold pts. by rewrite !length_zip_with. }
  intros i x y Hx Hy.
  assert (Hi : imap pair (zip xs ys) !! i = Some (i, (x, y))).
  { by rewrite list_lookup_imap, lookup_zip_with, Hx, Hy. }
  destruct (Forall2_lookup_l _ _ _ _ _ Hvd Hi) as (row & Hrow & Hrun).
  exists row. split; [done|]. intros Hout. simpl in Hrun.
  unfold valid_detectors_row in Hrun.
  assert (Hok : getitem (is_okay_of (_camera_bbox a) pts) i = Ok false).
  { apply getitem_Ok. unfold is_okay_of, pts.
    by rewrite list_lookup_fmap, lookup_zip_with, Hx, Hy, <- Hout. }
  rewrite Hok in Hrun. simpl in Hrun. by injection Hrun as <-.
Qed.

(** The lookup after its cache is in place, read backwards from its result. *)
Lemma lookup_body_inv (a : lookup_attrs) xP yP allow fl :
  lookup_body a xP yP allow = Ok fl →
  let xs := coords xP xP in
  let ys := coords xP yP in
  same_shape xP yP = true ∧ xs ≠ [] ∧
  ∃ vd,
    valid_detectors_of a (is_okay_of (_camera_bbox a) (zip_with mkPoint2D xs ys))
      xs ys = Ok vd ∧
    findDetectorsListLSST_run (zip_with mkPoint2D xs ys) vd allow = Ok fl.
Proof.
  unfold lookup_body, coords. rewrite validate_pair.
  destruct (same_shape xP yP); [cbn [mbind result_bind]|done].
  destruct (valid_detectors_of _ _ _ _) as [vd|] eqn:Hvd; [simpl|done].
  destruct (findDetectorsListLSST_run _ _ _) as [fl'|] eqn:Hrun; [simpl|done].
  destruct (decide (length _ = 0)) as [Hz|Hz]; [done|].
  intros [= <-]. split; [done|]. split.
  - intros E. by rewrite E in Hz.
  - by exists vd.
Qed.

(** The lookup after its cache is in place returns for every batch that is
    not empty, with one entry per point; on an empty batch it raises. *)
Lemma lookup_body_returns (a : lookup_attrs) xP yP allow :
  attrs_ok a → same_shape xP yP = true →
  let xs := coords xP xP in
  let ys := coords xP yP in
  (xs ≠ [] →
   ∃ fl, lookup_body a xP yP allow = Ok fl ∧
         length (outputNameList (flow_val fl)) = length xs) ∧
  (xs = [] → lookup_body a xP yP allow = Raise ZeroDivisionError).
Proof.
  intros Ha Hshape xs ys. pose proof (coords_length xP yP Hshape) as Hxy.
  fold xs ys in Hxy. unfold coords in xs, ys.
  destruct (valid_detectors_of_spec a xs ys Ha) as (vd & Hvd & Hlen & _).
  destruct (resolver_run_spec (zip_with mkPoint2D xs ys) vd allow Hlen)
    as (fl & Hrun & Hinv & _).
  unfold lookup_body. rewrite validate_pair, Hshape.
  cbn [mbind result_bind]. fold xs ys. rewrite Hvd.
  cbn [mbind result_bind]. rewrite Hrun. cbn [mbind result_bind]. split.
  - intros Hne. rewrite decide_False by (by destruct xs).
    exists fl. split; [done|]. rewrite (inv_len_out _ _ _ _ _ Hinv).
    rewrite length_zip_with. lia.
  - intros E. rewrite E. done.
Qed.

End lookup_body_facts.

(** A point without candidates keeps the entry None and is never handed to
    a detector's transform. *)
Lemma empty_row_untouched `{Camera} (pts : list Point2D) (dl : list (list Detector))
    (allow : bool) fl i :
  length dl = length pts →
  findDetectorsListLSST_run pts dl allow = Ok fl →
  dl !! i = Some [] →
  outputNameList (flow_val fl) !! i = Some PyNone ∧
  ∀ v, v ∈ visits (flow_val fl) → i ∉ v_points v.
Proof.
  intros Hlen Hrun Hrow.
  assert (Hi : i < length pts) by (apply lookup_lt_Some in Hrow; lia).
  assert (Hempty : row_of dl i = []) by (unfold row_of; by rewrite Hrow).
  destruct (resolver_run_spec pts dl allow Hlen) as (fl' & Hrun' & Hinv & Htr & _).
  rewrite Hrun in Hrun'. injection Hrun' as <-. split.
  - rewrite (inv_out _ _ _ _ _ Hinv i Hi). unfold hits. rewrite Hempty.
    rewrite (list_filter_iff _ (λ _, False)).
    2:{ intros d. split; [|done]. intros [Hd _]. by apply elem_of_nil in Hd. }
    assert (Hnil : ∀ l : list Detector, filter (λ _, False) l = []).
    { induction l as [|x l IH]; [done|]. rewrite filter_cons. by case_decide. }
    rewrite Hnil. simpl. by destruct (multi_eligible _ _ _).
  - intros v Hv Hin. rewrite (tr_points _ _ _ Htr v Hv) in Hin.
    apply list_elem_of_filter in Hin as [_ Hin].
    by destruct (tr_unfound _ _ _ Htr v i Hv Hin).
Qed.

(** The small camera is well formed. *)
Lemma toy_camera_ok : camera_ok (H := Toy.camera).
Proof. unfold camera_ok. repeat (constructor; [split; reflexivity|]). constructor. Defined.

Lemma toy_cache_ok : cache_ok (H := Toy.camera) None.
Proof.
  destruct (build_attrs_ok (H := Toy.camera) toy_camera_ok) as (a & Hb & _ & _ & Hok).
  exists a. split; [exact Hb|exact Hok].
Defined.

(** ** The claims on the lookup *)

(** A call of the lookup that returns, read backwards: a point outside the
    box of the whole camera has an empty candidate list, and a point with an
    empty candidate list keeps the entry None and is in no batch of points
    handed to a detector's transform. *)
Lemma outside_point_inv `{Camera} (attrs attrs' : option lookup_attrs)
    (xPupil yPupil : pyarg) (allow : bool) (fl : flow state) :
  chipNameFromPupilCoordsLSST_run attrs xPupil yPupil allow = (attrs', Ok fl) →
  let xs := coords xPupil xPupil in
  let ys := coords xPupil yPupil in
  ∃ a vd,
    attrs' = Some a ∧
    valid_detectors_of a (is_okay_of (_camera_bbox a) (zip_with mkPoint2D xs ys))
      xs ys = Ok vd ∧
    ∀ i x y, xs !! i = Some x → ys !! i = Some y →
      (Box2D_contains (_camera_bbox a) (mkPoint2D x y) = false → vd !! i = Some []) ∧
      (vd !! i = Some [] →
       outputNameList (flow_val fl) !! i = Some PyNone ∧
       ∀ v, v ∈ visits (flow_val fl) → i ∉ v_points v).
Proof.
  intros Hcall xs ys. unfold chipNameFromPupilCoordsLSST_run in Hcall.
  destruct (ensure_attrs attrs) as [a|]; [|done]. injection Hcall as <- Hbody.
  apply lookup_body_inv in Hbody as (_ & _ & vd & Hvd & Hrun).
  fold xs ys in Hvd, Hrun.
  destruct (valid_detectors_of_inv a xs ys vd Hvd) as [Hlen Hrows].
  exists a, vd. split; [done|]. split; [done|]. intros i x y Hx Hy. split.
  - intros Hout. destruct (Hrows i x y Hx Hy) as (row & Hrow & Hnil).
    by rewrite Hrow, (Hnil Hout).
  - intros Hrow. by apply (empty_row_untouched _ vd allow fl i Hlen Hrun).
Qed.

(** C4: with the cache empty or built, every call of
    chipNameFromPupilCoordsLSST on a batch that is not empty returns, and in
    it a point outside the box of the whole camera has an empty candidate
    list, and a point whose candidate list is empty gets the entry None and
    is in no batch of points handed to a detector's transform. *)
Theorem outside_point_no_transform `{Camera} (attrs : option lookup_attrs)
    (xPupil yPupil : pyarg) (allow : bool) :
  cache_ok attrs → same_shape xPupil yPupil = true →
  coords xPupil xPupil ≠ [] →
  let xs := coords xPupil xPupil in
  let ys := coords xPupil yPupil in
  ∃ a vd fl,
    chipNameFromPupilCoordsLSST_run attrs xPupil yPupil allow = (Some a, Ok fl) ∧
    valid_detectors_of a (is_okay_of (_camera_bbox a) (zip_with mkPoint2D xs ys))
      xs ys = Ok vd ∧
    ∀ i x y, xs !! i = Some x → ys !! i = Some y →
      (Box2D_contains (_camera_bbox a) (mkPoint2D x y) = false → vd !! i = Some []) ∧
      (vd !! i = Some [] →
       outputNameList (flow_val fl) !! i = Some PyNone ∧
       ∀ v, v ∈ visits (flow_val fl) → i ∉ v_points v).
Proof.
  intros (a & Hens & Ha) Hshape Hne xs ys.
  destruct (lookup_body_returns a xPupil yPupil allow Ha Hshape) as [Hret _].
  destruct (Hret Hne) as (fl & Hbody & _).
  assert (Hcall : chipNameFromPupilCoordsLSST_run attrs xPupil yPupil allow
                  = (Some a, Ok fl)).
  { unfold chipNameFromPupilCoordsLSST_run. by rewrite Hens, Hbody. }
  destruct (outside_point_inv attrs (Some a) xPupil yPupil allow fl Hcall)
    as (a' & vd & [= <-] & Hvd & Hpt).
  by exists a, vd, fl.
Qed.

Lemma outside_point_no_transform_witness :
  ∃ fl, (chipNameFromPupilCoordsLSST_run (H := Toy.camera) None
           (Array [5; 15]%float) (Array [5; 40]%float) true).2 = Ok fl ∧
        outputNameList (flow_val fl) !! 1 = Some PyNone.
Proof.
  destruct (@outside_point_no_transform Toy.camera None (Array [5; 15]%float)
              (Array [5; 40]%float) true toy_cache_ok eq_refl)
    as (a & vd & fl & Hrun & Hvd & Hpt).
  - discriminate.
  - exists fl. rewrite Hrun. split; [reflexivity|].
    destruct (Hpt 1 15%float 40%float eq_refl eq_refl) as [Hout Hnone].
    apply Hnone, Hout.
    vm_compute in Hrun. injection Hrun as <- _. reflexivity.
Defined.

(** X7: the lookup on a batch of M > 0 points, with its cache empty or
    built: it returns M entries, in the order of the points, and the entry
    of a point is what the exhaustive test of that point gives on the
    visited detectors of its candidate row. *)
Lemma lookup_returns_in_order `{Camera} (attrs : option lookup_attrs)
    (xs ys : list float) (allow : bool) :
  cache_ok attrs → length xs = length ys → xs ≠ [] →
  ∃ a fl vd,
    chipNameFromPupilCoordsLSST_run attrs (Array xs) (Array ys) allow = (Some a, Ok fl) ∧
    length (outputNameList (flow_val fl)) = length xs ∧
    valid_detectors_of a (is_okay_of (_camera_bbox a) (zip_with mkPoint2D xs ys))
      xs ys = Ok vd ∧
    ∀ i x y, xs !! i = Some x → ys !! i = Some y →
      outputNameList (flow_val fl) !! i =
      Some (exhaustive_point allow (mkPoint2D x y)
              (filter (λ d, d ∈ row_of vd i) (checked_detectors (flow_val fl)))).
Proof.
  intros (a & Hens & Ha) Hlen Hne.
  assert (Hshape : same_shape (Array xs) (Array ys) = true).
  { simpl. by apply bool_decide_eq_true. }
  destruct (lookup_body_returns a (Array xs) (Array ys) allow Ha Hshape) as [Hret _].
  destruct (Hret Hne) as (fl & Hbody & Hout).
  pose proof Hbody as Hinv.
  apply lookup_body_inv in Hinv as (_ & _ & vd & Hvd & Hrun).
  unfold coords in *. simpl in *.
  destruct (valid_detectors_of_inv a xs ys vd Hvd) as [Hlvd _].
  exists a, fl, vd. unfold chipNameFromPupilCoordsLSST_run. rewrite Hens, Hbody.
  split; [done|]. split; [done|]. split; [done|]. intros i x y Hx Hy.
  apply (entry_exhaustive_visited _ vd allow Hlvd fl i _ Hrun).
  by rewrite lookup_zip_with, Hx, Hy.
Qed.

Lemma lookup_returns_in_order_witness :
  ∃ a fl,
    chipNameFromPupilCoordsLSST_run (H := Toy.camera) None
      (Array [5; 27]%float) (Array [5; 5]%float) true = (Some a, Ok fl) ∧
    length (outputNameList (flow_val fl)) = 2.
Proof.
  destruct (@lookup_returns_in_order Toy.camera None [5; 27]%float [5; 5]%float
              true toy_cache_ok eq_refl)
    as (a & fl & vd & Hrun & Hlen & _); [discriminate|].
  exists a, fl. split; [exact Hrun|exact Hlen].
Defined.

(** C8 fails on the empty batch: for M = 0 the call does not return an array
    of 0 results.  The resolver returns the empty array, and the closing
    timing report divides by float(len(xPupil)) = 0.0. *)
Theorem empty_batch_raises `{Camera} (attrs : option lookup_attrs) (allow : bool) :
  (∀ fl, (chipNameFromPupilCoordsLSST_run attrs (Array []) (Array []) allow).2
         ≠ Ok fl) ∧
  (∀ a, ensure_attrs attrs = Ok a →
        (chipNameFromPupilCoordsLSST_run attrs (Array []) (Array []) allow).2
        = Raise ZeroDivisionError) ∧
  ∃ out, _findDetectorsListLSST [] [] allow = Ok out ∧ length out = 0.
Proof.
  assert (Hbody : ∀ a, lookup_body a (Array []) (Array []) allow
                       = Raise ZeroDivisionError).
  { intros a. unfold lookup_body. rewrite validate_pair. simpl.
    by destruct allow. }
  unfold chipNameFromPupilCoordsLSST_run. split; [|split].
  - intros fl. destruct (ensure_attrs attrs) as [a|]; simpl; [|done].
    by rewrite Hbody.
  - intros a ->. simpl. apply Hbody.
  - exists []. by destruct allow.
Qed.

(** C5: on a camera that hands out four corners for every chip and finds
    every chip under its name, the index built and cached by the lookup
    holds, for every detector, the centroid of its four corners mapped into
    the pupil frame as its center and the mean distance from that centroid
    to the four mapped corners as its radius; and for every point inside the
    box of the whole camera the candidate list consists of exactly the
    detectors with dist^2 < (1.1 * radius)^2. *)
Theorem index_and_candidates `{Camera} :
  camera_ok →
  ∃ a,
    build_attrs = Ok a ∧ ensure_attrs None = Ok a ∧
    (∀ k c, camera_chips !! k = Some c →
       _detector_arr a !! k = Some c ∧
       map_name (_pupil_map a) !! k = Some (getName c) ∧
       map_xx (_pupil_map a) !! k = Some (centroid (pupil_corners c)).1 ∧
       map_yy (_pupil_map a) !! k = Some (centroid (pupil_corners c)).2 ∧
       map_dp (_pupil_map a) !! k =
         Some (mean_distance (centroid (pupil_corners c)) (pupil_corners c))) ∧
    (∀ xs ys,
       ∃ vd,
         valid_detectors_of a
           (is_okay_of (_camera_bbox a) (zip_with mkPoint2D xs ys)) xs ys = Ok vd ∧
         ∀ i x y, xs !! i = Some x → ys !! i = Some y →
           Box2D_contains (_camera_bbox a) (mkPoint2D x y) = true →
           ∃ row, vd !! i = Some row ∧
             ∀ d, d ∈ row ↔
               ∃ j, _detector_arr a !! j = Some d ∧
                    within_radius (_pupil_map a) x y j).
Proof.
  intros Hcam.
  destruct (build_attrs_ok Hcam) as (a & Hbuild & Harr & Hmap & Hok).
  exists a. split; [done|]. split; [done|]. split.
  - intros k c Hk. rewrite (build_map_ok Hcam) in Hmap. injection Hmap as Hmap.
    rewrite <- Hmap, Harr. simpl. rewrite !list_lookup_fmap, Hk. done.
  - intros xs ys.
    destruct (valid_detectors_of_spec a xs ys Hok) as (vd & Hvd & _ & Hrows).
    exists vd. split; [done|]. intros i x y Hx Hy Hin.
    destruct (Hrows i x y Hx Hy) as (row & Hrow & _ & Hcand).
    exists row. split; [done|]. by apply Hcand.
Qed.

Lemma index_and_candidates_witness :
  ∃ a, build_attrs (H := Toy.camera) = Ok a ∧
       map_xx (_pupil_map a) !! 0 = Some (centroid (pupil_corners Toy.D0)).1.
Proof.
  destruct (@index_and_candidates Toy.camera toy_camera_ok) as (a & Hbuild & _ & Hidx & _).
  exists a. split; [exact Hbuild|].
  destruct (Hidx 0 Toy.D0 eq_refl) as (_ & _ & Hxx & _). exact Hxx.
Defined.

(** ** The claims on the entry points *)







(** C9: two calls of pixelCoordsFromRaDecLSST that differ only in the epoch
    give the same result in every world: the function hands the constant
    2000.0 to _pixelCoordsFromRaDecLSST, whatever epoch it was given. *)
Theorem epoch_not_forwarded `{Camera} `{Sky} (ra dec : pyarg)
    (pm_ra pm_dec parallax v_rad : option pyarg)
    (obs_metadata : option ObservationMetaData) (chipName : chipname_arg)
    (epoch1 epoch2 : option float) (includeDistortion : bool) :
  pixelCoordsFromRaDecLSST ra dec pm_ra pm_dec parallax v_rad obs_metadata chipName
    epoch1 includeDistortion =
  pixelCoordsFromRaDecLSST ra dec pm_ra pm_dec parallax v_rad obs_metadata chipName
    epoch2 includeDistortion ∧
  pixelCoordsFromRaDecLSST ra dec pm_ra pm_dec parallax v_rad obs_metadata chipName
    epoch1 includeDistortion =
  _pixelCoordsFromRaDecLSST (np_radians ra) (np_radians dec) (arcsec_opt pm_ra)
    (arcsec_opt pm_dec) (arcsec_opt parallax) v_rad obs_metadata chipName
    (Some 2000%float) includeDistortion.
Proof. split; reflexivity. Qed.

(** The underscore function does depend on its epoch, and the chip-name
    wrapper in degrees forwards the caller's epoch: with the epoch None the
    first two raise, the pixel wrapper in degrees does not. *)
Lemma epoch_matters_elsewhere :
  (_pixelCoordsFromRaDecLSST (Scalar 5) (Scalar 5) None None None None
     (Some Toy.obs) NoChipName None true Toy.w0).2
    = Raise (RuntimeError "You need to pass an epoch into pixelCoordsFromRaDec") ∧
  (chipNameFromRaDecLSST (Scalar 5) (Scalar 5) None None None None
     (Some Toy.obs) None false Toy.w0).2
    = Raise (RuntimeError "You need to pass an epoch into chipName") ∧
  (pixelCoordsFromRaDecLSST (Scalar 5) (Scalar 5) None None None None
     (Some Toy.obs) NoChipName None true Toy.w0).2 = Ok [PyStr "D0"].
Proof. vm_compute. repeat split; done. Qed.

(** * Further properties of the code *)

(** ** The resolver *)

Section resolver_more.
Context `{Camera} (pts : list Point2D) (dl : list (list Detector)).
Hypothesis Hlen : length dl = length pts.

(** X1: when no candidate of any point is a wavefront sensor,
    allow_multiple_chips has no effect on what the resolver does. *)
Theorem allow_multiple_irrelevant :
  Forall (λ row, has_wavefront row = false) dl →
  findDetectorsListLSST_run pts dl true = findDetectorsListLSST_run pts dl false ∧
  _findDetectorsListLSST pts dl true = _findDetectorsListLSST pts dl false.
Proof.
  intros Hnw.
  assert (Hrun : findDetectorsListLSST_run pts dl true
                 = findDetectorsListLSST_run pts dl false).
  { unfold findDetectorsListLSST_run.
    destruct (init_could_be_multiple_ok pts dl true Hlen) as (ct & Ht & Hlt & Hct).
    destruct (init_could_be_multiple_ok pts dl false Hlen) as (cf & Hf & Hlf & Hcf).
    rewrite Ht, Hf. replace ct with cf; [done|].
    apply list_eq. intros i. destruct (decide (i < length pts)) as [Hi|Hi].
    - rewrite (Hct i Hi), (Hcf i Hi). unfold multi_eligible. simpl.
      rewrite Forall_forall in Hnw. symmetry. f_equal. apply Hnw.
      eapply list_elem_of_lookup_2. by apply (row_of_lt pts dl Hlen).
    - rewrite !lookup_ge_None_2; [done|lia|lia]. }
  split; [done|]. unfold _findDetectorsListLSST. by rewrite Hrun.
Qed.

(** The hits of a point are candidates that contain it. *)
Lemma hits_contain (fl : flow state) i p d :
  pts !! i = Some p →
  d ∈ hits pts dl (checked_detectors (flow_val fl)) i →
  d ∈ row_of dl i ∧ contains_point d p = true.
Proof using Type.
  forget_shape. intros Hp (_ & Hd & Hon)%elem_of_hits.
  by rewrite <- (on_chip_lookup pts d i p Hp).
Qed.

(** The entry of a point is None exactly when no candidate contains it. *)
Lemma entry_none_iff (allow : bool) fl i p :
  findDetectorsListLSST_run pts dl allow = Ok fl → pts !! i = Some p →
  (outputNameList (flow_val fl) !! i = Some PyNone ↔
   Forall (λ d, contains_point d p = false) (row_of dl i)).
Proof.
  intros Hrun Hp. assert (Hi : i < length pts) by (by eapply lookup_lt_Some).
  rewrite (resolver_entry pts dl allow Hlen fl i Hrun Hi).
  pose proof (λ d, hits_contain fl i p d Hp) as Hin.
  set (found := hits pts dl (checked_detectors (flow_val fl)) i) in *.
  split.
  - intros Hnone. apply Forall_forall. intros d Hd.
    apply not_true_iff_false. intros Hc.
    assert (Hnil : found = []).
    { destruct found as [|a [|b l]]; [done|..];
        destruct (multi_eligible allow dl i); simpl in Hnone; discriminate. }
    assert (Hd' : d ∈ found).
    { apply (hit_found pts dl allow Hlen fl i d Hrun Hi Hd).
      - by rewrite (on_chip_lookup pts d i p Hp).
      - by right. }
    rewrite Hnil in Hd'. by apply elem_of_nil in Hd'.
  - intros Hall. rewrite Forall_forall in Hall.
    destruct found as [|a l] eqn:Hf; [by destruct (multi_eligible allow dl i)|].
    destruct (Hin a ltac:(left)) as [Ha Hc]. rewrite (Hall a Ha) in Hc. done.
Qed.

(** With allow_multiple_chips=False the entry of a point is None or the
    name of a candidate that contains it. *)
Lemma entry_single fl i p :
  findDetectorsListLSST_run pts dl false = Ok fl → pts !! i = Some p →
  ∃ o, outputNameList (flow_val fl) !! i = Some o ∧
       (o = PyNone ∨
        ∃ d, d ∈ row_of dl i ∧ contains_point d p = true ∧ o = PyStr (getName d)).
Proof.
  intros Hrun Hp. assert (Hi : i < length pts) by (by eapply lookup_lt_Some).
  rewrite (resolver_entry pts dl false Hlen fl i Hrun Hi).
  pose proof (λ d, hits_contain fl i p d Hp) as Hin.
  set (found := hits pts dl (checked_detectors (flow_val fl)) i) in *.
  unfold multi_eligible. simpl. destruct found as [|a l] eqn:Hf; simpl.
  - eexists. split; [done|by left].
  - eexists. split; [done|]. right. exists a.
    destruct (Hin a ltac:(left)). done.
Qed.

(** X2: the entry of a point is None exactly when no detector of its
    candidate row contains it; with allow_multiple_chips=False an entry that
    is a name is the name of a candidate that contains the point. *)
Theorem none_iff_no_candidate_contains (allow : bool) i p :
  pts !! i = Some p →
  ∃ fl,
    findDetectorsListLSST_run pts dl allow = Ok fl ∧
    (outputNameList (flow_val fl) !! i = Some PyNone ↔
     Forall (λ d, contains_point d p = false) (row_of dl i)) ∧
    (allow = false → ∀ s, outputNameList (flow_val fl) !! i = Some (PyStr s) →
     ∃ d, d ∈ row_of dl i ∧ contains_point d p = true ∧ s = getName d).
Proof.
  intros Hp. assert (Hi : i < length pts) by (by eapply lookup_lt_Some).
  destruct (resolver_run_spec pts dl allow Hlen) as (fl & Hrun & _).
  exists fl. split; [done|]. split; [by apply (entry_none_iff allow)|].
  rewrite (resolver_entry pts dl allow Hlen fl i Hrun Hi).
  pose proof (λ d, hits_contain fl i p d Hp) as Hin.
  set (found := hits pts dl (checked_detectors (flow_val fl)) i) in *.
  intros -> s Hs. unfold multi_eligible in Hs. simpl in Hs.
  destruct found as [|a l] eqn:Hf; simpl in Hs; [done|].
  injection Hs as <-. exists a. destruct (Hin a ltac:(left)). done.
Qed.

(** A point that exactly one candidate contains holds the name of that
    candidate. *)
Lemma entry_unique_hit (allow : bool) fl i p d :
  findDetectorsListLSST_run pts dl allow = Ok fl →
  pts !! i = Some p → d ∈ row_of dl i → contains_point d p = true →
  (∀ d', d' ∈ row_of dl i → contains_point d' p = true → d' = d) →
  outputNameList (flow_val fl) !! i = Some (PyStr (getName d)).
Proof.
  intros Hrun Hp Hd Hc Huniq. assert (Hi : i < length pts) by (by eapply lookup_lt_Some).
  rewrite (resolver_entry pts dl allow Hlen fl i Hrun Hi).
  set (found := hits pts dl (checked_detectors (flow_val fl)) i).
  assert (Hnd : NoDup found).
  { apply NoDup_filter. by apply (resolver_checked_NoDup pts dl allow Hlen). }
  destruct (NoDup_at_most_one found d Hnd) as [Hnil|Hone].
  - intros x (_ & Hx & Hon)%elem_of_hits. apply Huniq; [done|].
    by rewrite <- (on_chip_lookup pts x i p Hp).
  - exfalso. assert (Hd' : d ∈ found).
    { apply (hit_found pts dl allow Hlen fl i d Hrun Hi Hd).
      - by rewrite (on_chip_lookup pts d i p Hp).
      - by right. }
    rewrite Hnil in Hd'. by apply elem_of_nil in Hd'.
  - rewrite Hone. by destruct (multi_eligible allow dl i).
Qed.

(** X3: a point that exactly one detector of its candidate row contains
    gets the name of that detector, whatever allow_multiple_chips is and
    whatever the type of the detector. *)
Theorem unique_hit_single (allow : bool) i p d :
  pts !! i = Some p → d ∈ row_of dl i → contains_point d p = true →
  (∀ d', d' ∈ row_of dl i → contains_point d' p = true → d' = d) →
  ∃ fl, findDetectorsListLSST_run pts dl allow = Ok fl ∧
        outputNameList (flow_val fl) !! i = Some (PyStr (getName d)).
Proof.
  intros Hp Hd Hc Huniq.
  destruct (resolver_run_spec pts dl allow Hlen) as (fl & Hrun & _).
  exists fl. split; [done|]. by apply (entry_unique_hit allow fl i p d).
Qed.

End resolver_more.

Lemma allow_multiple_irrelevant_witness :
  _findDetectorsListLSST [Toy.pt 20 20; Toy.pt 7 25] [[Toy.A]; [Toy.B; Toy.A]] true
  = _findDetectorsListLSST [Toy.pt 20 20; Toy.pt 7 25] [[Toy.A]; [Toy.B; Toy.A]] false.
Proof.
  apply (@allow_multiple_irrelevant Toy.camera [Toy.pt 20 20; Toy.pt 7 25]
           [[Toy.A]; [Toy.B; Toy.A]] eq_refl).
  repeat constructor.
Defined.

Lemma none_iff_no_candidate_contains_witness :
  ∃ fl, findDetectorsListLSST_run [Toy.pt 20 20; Toy.pt 7 25]
          [[Toy.A]; [Toy.B; Toy.A]] false = Ok fl ∧
        outputNameList (flow_val fl) !! 0 = Some PyNone.
Proof.
  destruct (@none_iff_no_candidate_contains Toy.camera [Toy.pt 20 20; Toy.pt 7 25]
              [[Toy.A]; [Toy.B; Toy.A]] eq_refl false 0 (Toy.pt 20 20) eq_refl)
    as (fl & Hrun & Hnone & _).
  exists fl. split; [exact Hrun|]. apply Hnone. repeat constructor.
Defined.

Lemma unique_hit_single_witness :
  ∃ fl, findDetectorsListLSST_run [Toy.pt 22 5] [[Toy.W0; Toy.W1]] true = Ok fl ∧
        outputNameList (flow_val fl) !! 0 = Some (PyStr "W0").
Proof.
  apply (@unique_hit_single Toy.camera [Toy.pt 22 5] [[Toy.W0; Toy.W1]] eq_refl
           true 0 (Toy.pt 22 5) Toy.W0 eq_refl).
  - left.
  - reflexivity.
  - intros d' Hd' Hc. destruct d'; try reflexivity; try discriminate Hc;
      exfalso; repeat (apply elem_of_cons in Hd' as [Hd'|Hd']; [discriminate|]);
      by apply elem_of_nil in Hd'.
Defined.

(** ** The resolver on ill-shaped input *)

Lemma init_chip_has_found_tail `{Camera} (rest : list (list Detector))
    (pre suf tail : list Z) :
  length suf = length rest →
  init_chip_has_found (length pre) rest (pre ++ suf ++ tail) =
  Ok (pre ++ zip_with (λ row c, if decide (length row = 0) then 1%Z else c) rest suf
          ++ tail).
Proof.
  revert pre suf. induction rest as [|row rest IH]; intros pre suf Hsuf.
  - destruct suf; [done|discriminate].
  - destruct suf as [|c suf]; [discriminate|]. simpl in *.
    destruct (decide (length row = 0)).
    + rewrite setitem_lt by (rewrite length_app; simpl; lia). simpl.
      replace (<[length pre:=1%Z]> (pre ++ c :: suf ++ tail))
        with ((pre ++ [1%Z]) ++ suf ++ tail).
      2:{ rewrite insert_app_r_alt by lia. rewrite Nat.sub_diag. simpl.
          by rewrite <- app_assoc. }
      replace (S (length pre)) with (length (pre ++ [1%Z]))
        by (rewrite length_app; simpl; lia).
      rewrite IH by lia. by rewrite <- app_assoc.
    + replace (pre ++ c :: suf ++ tail) with ((pre ++ [c]) ++ suf ++ tail)
        by (by rewrite <- app_assoc).
      replace (S (length pre)) with (length (pre ++ [c]))
        by (rewrite length_app; simpl; lia).
      rewrite IH by lia. by rewrite <- app_assoc.
Qed.

Lemma init_chip_has_found_extra `{Camera} (rest : list (list Detector)) :
  ∀ s (chf : list Z) j,
    rest !! j = Some [] → length chf ≤ s + j →
    init_chip_has_found s rest chf = Raise IndexError.
Proof.
  induction rest as [|row rest IH]; intros s chf j Hj Hlen; [done|]. simpl.
  destruct (decide (length row = 0)) as [Hrow|Hrow].
  - unfold setitem. destruct (decide (s < length chf)) as [Hs|Hs]; [simpl|done].
    destruct j as [|j]; [lia|]. simpl in Hj.
    apply (IH (S s) _ j Hj). rewrite length_insert. lia.
  - destruct j as [|j]; simpl in Hj.
    + injection Hj as ->. done.
    + apply (IH (S s) _ j Hj). lia.
Qed.

Lemma valid_points_raise `{Camera} (dl : list (list Detector)) d (unfound : list nat) j :
  j ∈ unfound → length dl ≤ j → valid_points dl d unfound = Raise IndexError.
Proof.
  induction unfound as [|i l IH]; intros Hj Hbad; [by apply elem_of_nil in Hj|].
  simpl. unfold getitem at 1. destruct (dl !! i) as [row|] eqn:Hrow; [simpl|done].
  apply elem_of_cons in Hj as [->|Hj].
  - apply lookup_lt_Some in Hrow. lia.
  - by rewrite IH.
Qed.

Section short_rows.
Context `{Camera} (pts : list Point2D) (dl : list (list Detector)).
Hypothesis Hshort : length dl < length pts.

Lemma for_each_could_be_multiple_raise j : ∀ k (cbm : list bool),
  k ≤ length dl → length dl < k + j → length cbm = length pts →
  for_each (λ cbm ipt,
              row ← getitem dl ipt;
              if has_wavefront row then setitem cbm ipt true else Ok cbm)
           (seq k j) cbm = Raise IndexError.
Proof.
  induction j as [|j IH]; intros k cbm Hk Hj Hcbm; [lia|].
  cbn [seq for_each]. cbn beta.
  destruct (dl !! k) as [row|] eqn:Hrow.
  2:{ assert (getitem dl k = Raise IndexError) as ->
        by (unfold getitem; by rewrite Hrow).
      reflexivity. }
  rewrite (proj2 (getitem_Ok dl k row) Hrow).
  apply lookup_lt_Some in Hrow. cbn [mbind result_bind].
  destruct (has_wavefront row).
  - rewrite setitem_lt by lia. cbn [mbind result_bind].
    apply IH; [lia|lia|]. by rewrite length_insert.
  - cbn [mbind result_bind]. apply IH; [lia|lia|done].
Qed.

(** [chip_has_found] after the first loop: the points without a row are
    still searched for. *)
Lemma short_chf :
  ∃ chf, init_chip_has_found 0 dl (replicate (length pts) (-1)%Z) = Ok chf ∧
         length chf = length pts ∧
         chf !! length dl = Some (-1)%Z ∧
         ∀ i row, dl !! i = Some row →
                  chf !! i = Some (found_flag (bool_decide (row = []))).
Proof.
  assert (E0 : replicate (length pts) (-1)%Z =
               replicate (length dl) (-1)%Z ++
               replicate (length pts - length dl) (-1)%Z).
  { rewrite <- replicate_add. f_equal. lia. }
  rewrite E0.
  pose proof (init_chip_has_found_tail dl [] (replicate (length dl) (-1)%Z)
                (replicate (length pts - length dl) (-1)%Z)) as E.
  simpl in E. rewrite E by (by rewrite length_replicate).
  eexists. split; [done|]. split; [|split].
  - rewrite length_app, length_zip_with, !length_replicate. lia.
  - rewrite lookup_app_r by (rewrite length_zip_with, length_replicate; lia).
    rewrite length_zip_with, length_replicate, Nat.min_id, Nat.sub_diag.
    apply lookup_replicate_2. lia.
  - intros i row Hrow. pose proof (lookup_lt_Some _ _ _ Hrow) as Hi.
    rewrite lookup_app_l by (rewrite length_zip_with, length_replicate; lia).
    rewrite lookup_zip_with, Hrow. simpl.
    rewrite lookup_replicate_2 by done. simpl. by destruct row.
Qed.

Lemma point_loop_raise (chf : list Z) (cbm : list bool) j : ∀ k sc,
  length chf = length pts →
  chf !! length dl = Some (-1)%Z →
  (∀ i row, dl !! i = Some row →
            chf !! i = Some (found_flag (bool_decide (row = [])))) →
  k ≤ length dl → length dl < k + j →
  point_loop dl (transformSingleSys <$> pts) cbm (seq k j)
    (mkState (replicate (length pts) PyNone) chf [] true [] sc []) = Raise IndexError.
Proof.
  induction j as [|j IH]; intros k sc Hlen Hm Hrows Hk Hj; [lia|]. simpl.
  destruct (dl !! k) as [row|] eqn:Hrow.
  - pose proof (lookup_lt_Some _ _ _ Hrow) as Hkm.
    rewrite (proj2 (getitem_Ok _ _ _) (Hrows k row Hrow)). simpl.
    destruct row as [|d row]; simpl.
    + apply IH; [done..|lia|lia].
    + rewrite (proj2 (getitem_Ok _ _ _) Hrow). simpl.
      assert (Hin : length dl ∈ where_unfound chf).
      { apply elem_of_where_unfound. exists (-1)%Z. split; [done|lia]. }
      unfold visit_detector, log_scan.
      cbn [outputNameList chip_has_found checked_detectors update_unfound
           unfound_pts scanned visits].
      rewrite decide_False.
      2:{ intros E. apply nil_length_inv in E. rewrite E in Hin.
          by apply elem_of_nil in Hin. }
      by rewrite (valid_points_raise dl d _ (length dl) Hin).
  - apply lookup_ge_None in Hrow. assert (k = length dl) as -> by lia.
    rewrite (proj2 (getitem_Ok _ _ _) Hm). simpl.
    unfold getitem. by rewrite (lookup_ge_None_2 dl (length dl)).
Qed.

Lemma short_rows_raise (allow : bool) :
  findDetectorsListLSST_run pts dl allow = Raise IndexError.
Proof.
  unfold findDetectorsListLSST_run.
  destruct short_chf as (chf & -> & Hlen & Hm & Hrows). simpl.
  unfold init_could_be_multiple. destruct allow.
  - rewrite for_each_could_be_multiple_raise; [done|lia|lia|].
    by rewrite length_replicate.
  - simpl. rewrite length_fmap.
    rewrite (point_loop_raise chf _ (length pts) 0 []); [done..|lia|lia].
Qed.

End short_rows.

(** X4: the resolver does not truncate ill-shaped input.  With fewer
    candidate rows than points, or with an empty candidate row beyond the
    last point, it raises IndexError. *)
Theorem shape_mismatch_raises `{Camera} (pts : list Point2D)
    (dl : list (list Detector)) (allow : bool) :
  length dl < length pts ∨ (∃ k, length pts ≤ k ∧ dl !! k = Some []) →
  findDetectorsListLSST_run pts dl allow = Raise IndexError ∧
  _findDetectorsListLSST pts dl allow = Raise IndexError.
Proof.
  intros Hshape.
  assert (Hrun : findDetectorsListLSST_run pts dl allow = Raise IndexError).
  { destruct Hshape as [Hshort|(k & Hk & Hrow)].
    - by apply short_rows_raise.
    - unfold findDetectorsListLSST_run.
      rewrite (init_chip_has_found_extra dl 0 _ k Hrow); [done|].
      rewrite length_replicate. lia. }
  split; [done|]. unfold _findDetectorsListLSST. by rewrite Hrun.
Qed.

Lemma shape_mismatch_raises_witness :
  _findDetectorsListLSST [Toy.pt 5 5; Toy.pt 7 25] [[Toy.D0]] false = Raise IndexError.
Proof.
  apply (@shape_mismatch_raises Toy.camera [Toy.pt 5 5; Toy.pt 7 25] [[Toy.D0]] false).
  left. simpl. lia.
Defined.

(** ** The cache and the candidate rows of the lookup *)

(** X5: a repeated call of the lookup gives the same result and leaves the
    cache as the first call left it, and what a call leaves in the cache
    does not depend on the points or on allow_multiple_chips. *)
Theorem lookup_cache_stable `{Camera} (attrs : option lookup_attrs)
    (xP yP xP' yP' : pyarg) (allow allow' : bool) :
  chipNameFromPupilCoordsLSST_run
    (chipNameFromPupilCoordsLSST_run attrs xP yP allow).1 xP yP allow
  = chipNameFromPupilCoordsLSST_run attrs xP yP allow ∧
  (chipNameFromPupilCoordsLSST_run attrs xP' yP' allow').1
  = (chipNameFromPupilCoordsLSST_run attrs xP yP allow).1.
Proof.
  unfold chipNameFromPupilCoordsLSST_run.
  destruct (ensure_attrs attrs) as [a|e] eqn:Hens; cbn [fst].
  - split; [|done].
    assert (Ha : ensure_attrs (Some a) = Ok a).
    { simpl. destruct (decide (length (_detector_arr a) = 0)) as [Hz|Hz]; [|done].
      destruct attrs as [a0|]; simpl in Hens; [|done].
      destruct (decide (length (_detector_arr a0) = 0)); [done|].
      injection Hens as ->. done. }
    by rewrite Ha.
  - split; [|done]. by rewrite Hens.
Qed.

Lemma np_where_sorted (mask : list bool) : StronglySorted lt (np_where mask).
Proof.
  unfold np_where. generalize 0 as s. generalize (length mask) as n.
  induction n as [|n IH]; intros s; simpl; [constructor|].
  rewrite filter_cons. case_decide; [|apply IH].
  constructor; [apply IH|].
  apply Forall_forall. intros j [_ Hj%elem_of_seq]%list_elem_of_filter. lia.
Qed.

Lemma take_sorted_sublist {A} (idxs : list nat) : ∀ (row arr : list A) off,
  StronglySorted lt idxs → Forall (λ j, off ≤ j) idxs →
  Forall2 (λ j d, arr !! (j - off) = Some d) idxs row →
  row `sublist_of` arr.
Proof.
  induction idxs as [|j idxs IH]; intros row arr off Hs Hoff Hrow.
  - apply Forall2_nil_inv_l in Hrow as ->. apply sublist_nil_l.
  - apply Forall2_cons_inv_l in Hrow as (d & row' & Hd & Hrow' & ->).
    apply StronglySorted_cons in Hs as [Hlt Hs].
    apply Forall_cons in Hoff as [Hj _].
    rewrite <- (take_drop_middle arr (j - off) d Hd).
    apply sublist_inserts_l, sublist_skip.
    apply (IH row' _ (S j) Hs).
    + eapply Forall_impl; [exact Hlt|]. simpl. lia.
    + rewrite Forall_forall in Hlt.
      apply Forall2_same_length_lookup_2; [by eapply Forall2_length|].
      intros i j' d' Hj' Hd'.
      pose proof (Forall2_lookup_lr _ _ _ _ _ _ Hrow' Hj' Hd') as Hget.
      simpl in Hget. rewrite lookup_drop.
      replace (S (j - off) + (j' - S j)) with (j' - off); [done|].
      assert (j < j') by (apply Hlt; by eapply list_elem_of_lookup_2). lia.
Qed.

(** X6: every candidate row handed to the resolver is a sublist of the
    cached detector array: its detectors come in the order of the array,
    and none comes twice when the array holds none twice. *)
Theorem candidate_rows_sublist `{Camera} (a : lookup_attrs) (is_okay : list bool)
    (xs ys : list float) (vd : list (list Detector)) :
  valid_detectors_of a is_okay xs ys = Ok vd →
  Forall (λ row, row `sublist_of` _detector_arr a ∧
                 (NoDup (_detector_arr a) → NoDup row)) vd.
Proof.
  intros Hvd%traverse_inv. apply Forall_forall. intros row Hrow.
  apply list_elem_of_lookup_1 in Hrow as [k Hk].
  destruct (Forall2_lookup_r _ _ _ _ _ Hvd Hk) as (q & _ & Hrun).
  unfold valid_detectors_row in Hrun.
  destruct (getitem is_okay q.1) as [ok|]; [simpl in Hrun|done].
  assert (Hsub : row `sublist_of` _detector_arr a).
  { destruct ok; simpl in Hrun.
    - apply traverse_inv in Hrun.
      apply (take_sorted_sublist
               (possible_dexes (_pupil_map a) q.2.1 q.2.2) row _ 0).
      + unfold possible_dexes. apply np_where_sorted.
      + apply Forall_forall. intros; lia.
      + eapply Forall2_impl; [exact Hrun|]. simpl. intros j d Hget.
        rewrite Nat.sub_0_r. by apply getitem_Ok.
    - injection Hrun as <-. apply sublist_nil_l. }
  split; [done|]. intros Hnd. by eapply sublist_NoDup.
Qed.

Lemma candidate_rows_sublist_witness :
  ∃ a vd,
    build_attrs (H := Toy.camera) = Ok a ∧
    valid_detectors_of a [true] [27%float] [5%float] = Ok vd ∧
    Forall (λ row, row `sublist_of` _detector_arr a) vd.
Proof.
  destruct (build_attrs_ok (H := Toy.camera) toy_camera_ok) as (a & Hb & _ & _ & Hok).
  destruct (valid_detectors_of a [true] [27%float] [5%float]) as [vd|e] eqn:Hvd.
  - exists a, vd. split; [exact Hb|]. split; [exact Hvd|].
    eapply Forall_impl; [exact (candidate_rows_sublist a _ _ _ vd Hvd)|].
    simpl. tauto.
  - exfalso. vm_compute in Hb. injection Hb as <-. vm_compute in Hvd. discriminate.
Defined.

(** X8: with the cache empty or built, the lookup gives a point the entry
    None exactly when the point lies outside the box of the whole camera or
    no detector whose centre is within 1.1 radii of the point contains it. *)
Theorem lookup_none_iff `{Camera} (attrs : option lookup_attrs)
    (xs ys : list float) (allow : bool) :
  cache_ok attrs → length xs = length ys → xs ≠ [] →
  ∃ a fl,
    chipNameFromPupilCoordsLSST_run attrs (Array xs) (Array ys) allow = (Some a, Ok fl) ∧
    ∀ i x y, xs !! i = Some x → ys !! i = Some y →
      (outputNameList (flow_val fl) !! i = Some PyNone ↔
       Box2D_contains (_camera_bbox a) (mkPoint2D x y) = false ∨
       ∀ j d, _detector_arr a !! j = Some d → within_radius (_pupil_map a) x y j →
              contains_point d (mkPoint2D x y) = false).
Proof.
  intros (a & Hens & Ha) Hlen Hne.
  assert (Hshape : same_shape (Array xs) (Array ys) = true).
  { simpl. by apply bool_decide_eq_true. }
  destruct (lookup_body_returns a (Array xs) (Array ys) allow Ha Hshape) as [Hret _].
  destruct (Hret Hne) as (fl & Hbody & _).
  pose proof Hbody as Hinv.
  apply lookup_body_inv in Hinv as (_ & _ & vd & Hvd & Hrun).
  unfold coords in *. simpl in *.
  destruct (valid_detectors_of_spec a xs ys Ha) as (vd' & Hvd' & Hlvd & Hrows).
  simpl in Hvd'. rewrite Hvd in Hvd'. injection Hvd' as <-.
  exists a, fl. unfold chipNameFromPupilCoordsLSST_run. rewrite Hens, Hbody.
  split; [done|]. intros i x y Hx Hy.
  destruct (Hrows i x y Hx Hy) as (row & Hrow & Hout & Hin).
  assert (Hp : zip_with mkPoint2D xs ys !! i = Some (mkPoint2D x y)).
  { by rewrite lookup_zip_with, Hx, Hy. }
  rewrite (entry_none_iff _ vd Hlvd allow fl i _ Hrun Hp).
  rewrite (row_of_lookup vd i row Hrow), Forall_forall.
  destruct (Box2D_contains (_camera_bbox a) (mkPoint2D x y)) eqn:Hbox.
  - specialize (Hin eq_refl). split.
    + intros Hall. right. intros j d Hd Hr. apply Hall, Hin. eauto.
    + intros [?|Hall]; [done|]. intros d (j & Hd & Hr)%Hin. eauto.
  - rewrite (Hout eq_refl). split; [by left|].
    intros _ d Hd. by apply elem_of_nil in Hd.
Qed.

Lemma lookup_none_iff_witness :
  ∃ a fl,
    chipNameFromPupilCoordsLSST_run (H := Toy.camera) None
      (Array [5; 15]%float) (Array [5; 40]%float) false = (Some a, Ok fl) ∧
    outputNameList (flow_val fl) !! 1 = Some PyNone.
Proof.
  destruct (@lookup_none_iff Toy.camera None [5; 15]%float [5; 40]%float false
              toy_cache_ok eq_refl)
    as (a & fl & Hrun & Hpt); [discriminate|].
  exists a, fl. split; [exact Hrun|].
  apply (Hpt 1 15%float 40%float eq_refl eq_refl). left.
  vm_compute in Hrun. injection Hrun as <- _. reflexivity.
Defined.

(** ** The entry points on the sky *)

(** X9: when the caller names the chips, _pixelCoordsFromRaDecLSST never
    looks the chips up: whether the call returns or raises, the cache of the
    lookup is left as it was and the lookup is not among the calls made; when
    the metadata is complete and the sky conversion returns, the result is
    that of pixelCoordsFromPupilCoords on the caller's names. *)
Theorem explicit_chipname_skips_lookup `{Camera} `{Sky} (w : world) (ra dec : pyarg)
    (pm_ra pm_dec parallax v_rad : option pyarg)
    (obs_metadata : option ObservationMetaData) (chipName : chipname_arg)
    (epoch : option float) (includeDistortion are_arrays : bool)
    (names : list pyobj) :
  _validate_inputs_and_chipname [ra; dec] ["ra"; "dec"] "pixelCoordsFromRaDecLSST"
    chipName = Ok (are_arrays, Some names) →
  let r := _pixelCoordsFromRaDecLSST ra dec pm_ra pm_dec parallax v_rad obs_metadata
             chipName epoch includeDistortion w in
  w_attrs r.1 = w_attrs w ∧
  (∃ l, w_calls r.1 = w_calls w ++ l ∧ CallChipNameFromPupilCoordsLSST ∉ l) ∧
  (∀ obs ep xPupil yPupil,
     obs_metadata = Some obs → epoch = Some ep →
     first_missing obs_metadata epoch = None →
     _pupilCoordsFromRaDec ra dec pm_ra pm_dec parallax v_rad obs ep
       = Ok (xPupil, yPupil) →
     r.2 = pixelCoordsFromPupilCoords xPupil yPupil names includeDistortion).
Proof.
  intros Hval r. subst r.
  unfold _pixelCoordsFromRaDecLSST, mbind, py_bind, lift, call, check_pixelCoords,
    raise, mret, py_ret.
  rewrite Hval.
  assert (Hnil : ∃ l : list event,
            w_calls w = w_calls w ++ l ∧ CallChipNameFromPupilCoordsLSST ∉ l).
  { exists []. rewrite app_nil_r. split; [done|]. apply not_elem_of_nil. }
  destruct epoch as [ep|]; [|simpl; split; [done|split; [done|]]; intros; done].
  destruct obs_metadata as [obs|]; [|simpl; split; [done|split; [done|]]; intros; done].
  unfold first_missing.
  destruct (mjd obs); [|simpl; split; [done|split; [done|]]; intros; done].
  destruct (rotSkyPos obs); [|simpl; split; [done|split; [done|]]; intros; done].
  cbn [w_attrs w_calls fst snd].
  destruct (_pupilCoordsFromRaDec ra dec pm_ra pm_dec parallax v_rad obs ep)
    as [[xp yp]|e] eqn:Hpup; cbn [w_attrs w_calls fst snd].
  - split; [done|]. split.
    + exists [CallPupilCoordsFromRaDec; CallPixelCoordsFromPupilCoords].
      rewrite <- app_assoc. split; [done|].
      intros Hin. repeat (apply elem_of_cons in Hin as [Hin|Hin]; [discriminate|]).
      by apply elem_of_nil in Hin.
    + intros obs' ep' xP yP [= <-] [= <-] _. rewrite Hpup. by intros [= <- <-].
  - split; [done|]. split.
    + exists [CallPupilCoordsFromRaDec]. split; [done|].
      intros Hin. repeat (apply elem_of_cons in Hin as [Hin|Hin]; [discriminate|]).
      by apply elem_of_nil in Hin.
    + intros obs' ep' xP yP [= <-] [= <-] _. by rewrite Hpup.
Qed.

Lemma explicit_chipname_skips_lookup_witness :
  w_attrs (_pixelCoordsFromRaDecLSST (Scalar 5) (Scalar 5) None None None None
             (Some Toy.obs) (OneChipName "D0") (Some 2000%float) true Toy.w0).1
  = None.
Proof.
  apply (@explicit_chipname_skips_lookup Toy.camera Toy.sky Toy.w0 (Scalar 5) (Scalar 5)
           None None None None (Some Toy.obs) (OneChipName "D0") (Some 2000%float)
           true false [PyStr "D0"] eq_refl).
Defined.

(** X10: when the caller names no chip, the metadata is complete and the sky
    conversion returns a batch of M > 0 points, _pixelCoordsFromRaDecLSST
    looks the chips up with allow_multiple_chips=False and hands
    pixelCoordsFromPupilCoords one entry per point: None, or the name of a
    detector of the cached array that contains the point. *)
Theorem pixel_lookup_names `{Camera} `{Sky} (w : world) (ra dec : pyarg)
    (pm_ra pm_dec parallax v_rad : option pyarg) (obs : ObservationMetaData)
    (chipName : chipname_arg) (ep m r : float)
    (includeDistortion are_arrays : bool) (xs ys : list float) :
  _validate_inputs_and_chipname [ra; dec] ["ra"; "dec"] "pixelCoordsFromRaDecLSST"
    chipName = Ok (are_arrays, None) →
  cache_ok (w_attrs w) → mjd obs = Some m → rotSkyPos obs = Some r →
  _pupilCoordsFromRaDec ra dec pm_ra pm_dec parallax v_rad obs ep
    = Ok (Array xs, Array ys) →
  length xs = length ys → xs ≠ [] →
  ∃ a names,
    ensure_attrs (w_attrs w) = Ok a ∧
    _pixelCoordsFromRaDecLSST ra dec pm_ra pm_dec parallax v_rad (Some obs) chipName
      (Some ep) includeDistortion w
    = (mkWorld (Some a)
         (w_calls w ++ [CallPupilCoordsFromRaDec; CallChipNameFromPupilCoordsLSST;
                        CallPixelCoordsFromPupilCoords]),
       pixelCoordsFromPupilCoords (Array xs) (Array ys) names includeDistortion) ∧
    length names = length xs ∧
    ∀ i x y, xs !! i = Some x → ys !! i = Some y →
      ∃ o, names !! i = Some o ∧
        (o = PyNone ∨
         ∃ d, d ∈ _detector_arr a ∧ contains_point d (mkPoint2D x y) = true ∧
              o = PyStr (getName d)).
Proof.
  intros Hval (a & Hens & Ha) Hmjd Hrot Hpup Hlen Hne.
  assert (Hshape : same_shape (Array xs) (Array ys) = true).
  { simpl. by apply bool_decide_eq_true. }
  destruct (lookup_body_returns a (Array xs) (Array ys) false Ha Hshape) as [Hret _].
  destruct (Hret Hne) as (fl & Hbody & Hout).
  pose proof Hbody as Hinv.
  apply lookup_body_inv in Hinv as (_ & _ & vd & Hvd & Hrun).
  unfold coords in *. simpl in Hvd, Hrun, Hout.
  destruct (valid_detectors_of_spec a xs ys Ha) as (vd' & Hvd' & Hlvd & Hrows).
  simpl in Hvd'. rewrite Hvd in Hvd'. injection Hvd' as <-.
  exists a, (outputNameList (flow_val fl)). split; [done|]. split.
  { unfold _pixelCoordsFromRaDecLSST, mbind, py_bind, lift, call, check_pixelCoords.
    rewrite Hval, Hmjd, Hrot. simpl. rewrite Hpup.
    unfold chipNameFromPupilCoordsLSST, chipNameFromPupilCoordsLSST_run.
    cbn [w_attrs w_calls]. rewrite Hens, Hbody. simpl.
    by rewrite <- !app_assoc. }
  split; [done|]. intros i x y Hx Hy.
  assert (Hp : zip_with mkPoint2D xs ys !! i = Some (mkPoint2D x y)).
  { by rewrite lookup_zip_with, Hx, Hy. }
  destruct (entry_single _ vd Hlvd fl i _ Hrun Hp) as (o & Ho & Hcase).
  exists o. split; [done|]. destruct Hcase as [->|(d & Hd & Hc & ->)]; [by left|].
  right. exists d. split; [|done].
  destruct (Hrows i x y Hx Hy) as (row & Hrow & Hout' & Hin).
  rewrite (row_of_lookup vd i row Hrow) in Hd.
  destruct (Box2D_contains (_camera_bbox a) (mkPoint2D x y)).
  - apply (Hin eq_refl) in Hd as (j & Hj & _). by eapply list_elem_of_lookup_2.
  - rewrite (Hout' eq_refl) in Hd. by apply elem_of_nil in Hd.
Qed.

Lemma pixel_lookup_names_witness :
  ∃ a names,
    ensure_attrs (w_attrs Toy.w0) = Ok a ∧
    _pixelCoordsFromRaDecLSST (Array [5; 15]%float) (Array [5; 40]%float)
      None None None None (Some Toy.obs) NoChipName (Some 2000%float) true Toy.w0
    = (mkWorld (Some a)
         [CallPupilCoordsFromRaDec; CallChipNameFromPupilCoordsLSST;
          CallPixelCoordsFromPupilCoords],
       Ok names) ∧
    length names = 2.
Proof.
  destruct (@pixel_lookup_names Toy.camera Toy.sky Toy.w0 (Array [5; 15]%float)
              (Array [5; 40]%float) None None None None Toy.obs NoChipName
              2000 59580 0 true true [5; 15]%float [5; 40]%float
              eq_refl toy_cache_ok eq_refl eq_refl eq_refl eq_refl)
    as (a & names & Hens & Hrun & Hlen & _); [discriminate|].
  exists a, names. split; [exact Hens|]. split; [exact Hrun|exact Hlen].
Defined.

(** X11: coordinate arguments of different shapes make both lookups raise a
    RuntimeError, at different moments: chipNameFromPupilCoordsLSST has by
    then built and stored its cache, while _chipNameFromRaDecLSST checks the
    shapes before anything else and leaves the world as it was, whatever
    the metadata. *)
Theorem mismatch_raises `{Camera} `{Sky} (w : world) (x y : pyarg)
    (pm_ra pm_dec parallax v_rad : option pyarg)
    (obs_metadata : option ObservationMetaData) (epoch : option float)
    (allow : bool) :
  same_shape x y = false →
  (∀ a, ensure_attrs (w_attrs w) = Ok a →
     ∃ msg, chipNameFromPupilCoordsLSST x y allow w
            = (mkWorld (Some a) (w_calls w ++ [CallChipNameFromPupilCoordsLSST]),
               Raise (RuntimeError msg))) ∧
  (∃ msg, _chipNameFromRaDecLSST x y pm_ra pm_dec parallax v_rad obs_metadata epoch
            allow w = (w, Raise (RuntimeError msg))).
Proof.
  intros Hshape. split.
  - intros a Hens.
    unfold chipNameFromPupilCoordsLSST, chipNameFromPupilCoordsLSST_run, lookup_body.
    rewrite Hens, validate_pair, Hshape. eexists. reflexivity.
  - unfold _chipNameFromRaDecLSST, mbind, py_bind, lift.
    rewrite validate_pair, Hshape. eexists. reflexivity.
Qed.

Lemma mismatch_raises_witness :
  ∃ a msg,
    chipNameFromPupilCoordsLSST (Scalar 5) (Array [5]%float) false Toy.w0
    = (mkWorld (Some a) [CallChipNameFromPupilCoordsLSST], Raise (RuntimeError msg)).
Proof.
  destruct toy_cache_ok as (a & Hens & _).
  destruct (@mismatch_raises Toy.camera Toy.sky Toy.w0 (Scalar 5) (Array [5]%float)
              None None None None None None false eq_refl) as [Hlook _].
  destruct (Hlook a Hens) as (msg & Hmsg).
  exists a, msg. exact Hmsg.
Defined.

(** ** The index builder on cameras of any shape *)

Lemma getitem_cases {A} (l : list A) i :
  (i < length l ∧ ∃ a, getitem l i = Ok a) ∨
  (length l ≤ i ∧ getitem l i = Raise IndexError).
Proof.
  unfold getitem. destruct (l !! i) as [a|] eqn:Hi.
  - left. split; [by eapply lookup_lt_Some|by exists a].
  - right. split; [by apply lookup_ge_None|done].
Qed.

Lemma traverse_raise {A B} (f : A → result B) (l : list A) e :
  Forall (λ a, (∃ b, f a = Ok b) ∨ f a = Raise e) l →
  Exists (λ a, f a = Raise e) l → traverse f l = Raise e.
Proof.
  induction 1 as [|a l [[b Hb]|Ha] _ IH]; intros Hex.
  - by apply Exists_nil in Hex.
  - simpl. rewrite Hb. simpl.
    apply Exists_cons in Hex as [Hex|Hex]; [congruence|].
    by rewrite (IH Hex).
  - simpl. by rewrite Ha.
Qed.

(** The three lists of the first loop grow together. *)
Lemma pix_lengths `{Camera} :
  length y_pix_list = length x_pix_list ∧ length name_list = length x_pix_list.
Proof.
  unfold x_pix_list, y_pix_list, name_list.
  induction camera_chips as [|c l [IHy IHn]]; [done|].
  rewrite !bind_cons, !length_app, IHy, IHn, !bind_ret_fmap, !length_fmap. done.
Qed.

(** The body of the second loop reads the entries 4k .. 4k+3 of the three
    lists: it returns when they are there and raises IndexError otherwise. *)
Lemma build_entry_cases `{Camera} (names : list string) (xp yp : list float) k :
  length names = length xp → length yp = length xp →
  (4 * k + 3 < length xp → ∃ e, build_entry names xp yp k = Ok e) ∧
  (length xp ≤ 4 * k + 3 → build_entry names xp yp k = Raise IndexError).
Proof.
  intros Hn Hy. unfold build_entry. split.
  - intros Hk.
    assert (Hget : ∀ j, j < 4 →
              (∃ a, getitem xp (k * 4 + j) = Ok a) ∧
              (∃ a, getitem yp (k * 4 + j) = Ok a)).
    { intros j Hj. split.
      - destruct (getitem_lt xp (k * 4 + j)) as (a & Ha & _); [lia|eauto].
      - destruct (getitem_lt yp (k * 4 + j)) as (a & Ha & _); [lia|eauto]. }
    destruct (getitem_lt names (k * 4)) as (n0 & -> & _); [lia|].
    destruct (Hget 0) as [[x0 Hx0] [y0 Hy0]]; [lia|].
    rewrite Nat.add_0_r in Hx0, Hy0.
    destruct (Hget 1) as [[x1 Hx1] [y1 Hy1]]; [lia|].
    destruct (Hget 2) as [[x2 Hx2] [y2 Hy2]]; [lia|].
    destruct (Hget 3) as [[x3 Hx3] [y3 Hy3]]; [lia|].
    rewrite Hx0, Hx1, Hx2, Hx3, Hy0, Hy1, Hy2, Hy3. cbn [mbind result_bind].
    match goal with |- context [traverse ?f ?l] =>
      destruct (traverse_total f l) as [dists ->] end.
    { apply Forall_forall. intros j Hj%elem_of_seq.
      destruct (Hget j) as [[xj ->] [yj ->]]; [lia|]. simpl. eauto. }
    simpl. eauto.
  - intros Hk.
    destruct (getitem_cases names (k * 4)) as [[_ [? ->]]|[_ ->]];
      cbn [mbind result_bind]; [|done].
    destruct (getitem_cases xp (k * 4)) as [[_ [? ->]]|[_ ->]];
      cbn [mbind result_bind]; [|done].
    destruct (getitem_cases xp (k * 4 + 1)) as [[_ [? ->]]|[_ ->]];
      cbn [mbind result_bind]; [|done].
    destruct (getitem_cases xp (k * 4 + 2)) as [[_ [? ->]]|[_ ->]];
      cbn [mbind result_bind]; [|done].
    destruct (getitem_cases xp (k * 4 + 3)) as [[Hlt _]|[_ ->]];
      cbn [mbind result_bind]; [lia|done].
Qed.

(** X12: the index builder checks the corners only through their total: it
    returns a map with one entry per chip when the camera hands out at least
    four corners per chip in total, however they are spread over the chips,
    and raises IndexError when it hands out fewer. *)
Theorem builder_corner_total `{Camera} :
  (4 * length camera_chips ≤ length x_pix_list →
   ∃ m, _build_lsst_pupil_coord_map = Ok m ∧
        length (map_name m) = length camera_chips ∧
        length (map_xx m) = length camera_chips ∧
        length (map_yy m) = length camera_chips ∧
        length (map_dp m) = length camera_chips) ∧
  (length x_pix_list < 4 * length camera_chips →
   _build_lsst_pupil_coord_map = Raise IndexError).
Proof.
  destruct pix_lengths as [Hy Hn].
  unfold _build_lsst_pupil_coord_map, pupilCoordsFromPixelCoords.
  cbn beta iota zeta.
  set (xp := (zip_with pupilFromPixel name_list (zip x_pix_list y_pix_list)).*1).
  set (yp := (zip_with pupilFromPixel name_list (zip x_pix_list y_pix_list)).*2).
  assert (Hxp : length xp = length x_pix_list).
  { unfold xp. rewrite length_fmap, length_zip_with, length_zip_with. lia. }
  assert (Hyp : length yp = length xp).
  { unfold xp, yp. by rewrite !length_fmap. }
  assert (Hnp : length name_list = length xp) by lia.
  pose proof (λ k, build_entry_cases name_list xp yp k Hnp Hyp) as Hent.
  split.
  - intros Htot.
    destruct (traverse_total (build_entry name_list xp yp)
                (seq 0 (length camera_chips))) as [entries Hentries].
    { apply Forall_forall. intros k Hk%elem_of_seq. apply Hent. lia. }
    rewrite Hentries. eexists. split; [reflexivity|].
    apply traverse_inv, Forall2_length in Hentries. rewrite length_seq in Hentries.
    cbn [map_name map_xx map_yy map_dp]. by rewrite !length_fmap.
  - intros Htot.
    rewrite (traverse_raise _ _ IndexError); [done| |].
    + apply Forall_forall. intros k _.
      destruct (decide (4 * k + 3 < length xp)) as [Hk|Hk].
      * left. by apply Hent.
      * right. apply Hent. lia.
    + apply Exists_exists. exists (length camera_chips - 1). split.
      * apply elem_of_seq. lia.
      * apply Hent. lia.
Qed.

Lemma builder_corner_total_witness :
  _build_lsst_pupil_coord_map (H := Toy.short_camera) = Raise IndexError ∧
  ∃ m, _build_lsst_pupil_coord_map (H := Toy.camera) = Ok m ∧
       length (map_name m) = 7.
Proof.
  split.
  - apply (@builder_corner_total Toy.short_camera). vm_compute. lia.
  - destruct (@builder_corner_total Toy.camera) as [Hok _].
    destruct Hok as (m & Hm & Hlen & _); [vm_compute; lia|].
    exists m. split; [exact Hm|exact Hlen].
Defined.

(** ** One containing detector *)

(** X13: with the cache empty or built, a point inside the box of the whole
    camera gets the name of a detector that contains it and whose centre is
    within 1.1 radii, when no other such detector contains it: whatever
    allow_multiple_chips is and whatever the types of the detectors. *)
Theorem lookup_unique_hit `{Camera} (attrs : option lookup_attrs)
    (xs ys : list float) (allow : bool) (i j : nat) (x y : float) (d : Detector) :
  cache_ok attrs → length xs = length ys →
  xs !! i = Some x → ys !! i = Some y →
  ∃ a fl,
    chipNameFromPupilCoordsLSST_run attrs (Array xs) (Array ys) allow = (Some a, Ok fl) ∧
    (Box2D_contains (_camera_bbox a) (mkPoint2D x y) = true →
     _detector_arr a !! j = Some d → within_radius (_pupil_map a) x y j →
     contains_point d (mkPoint2D x y) = true →
     (∀ j' d', _detector_arr a !! j' = Some d' → within_radius (_pupil_map a) x y j' →
               contains_point d' (mkPoint2D x y) = true → d' = d) →
     outputNameList (flow_val fl) !! i = Some (PyStr (getName d))).
Proof.
  intros (a & Hens & Ha) Hlen Hx Hy.
  assert (Hne : xs ≠ []) by (intros ->; done).
  assert (Hshape : same_shape (Array xs) (Array ys) = true).
  { simpl. by apply bool_decide_eq_true. }
  destruct (lookup_body_returns a (Array xs) (Array ys) allow Ha Hshape) as [Hret _].
  destruct (Hret Hne) as (fl & Hbody & _).
  pose proof Hbody as Hinv.
  apply lookup_body_inv in Hinv as (_ & _ & vd & Hvd & Hrun).
  unfold coords in *. simpl in *.
  destruct (valid_detectors_of_spec a xs ys Ha) as (vd' & Hvd' & Hlvd & Hrows).
  simpl in Hvd'. rewrite Hvd in Hvd'. injection Hvd' as <-.
  exists a, fl. unfold chipNameFromPupilCoordsLSST_run. rewrite Hens, Hbody.
  split; [done|]. intros Hbox Hd Hr Hc Huniq.
  destruct (Hrows i x y Hx Hy) as (row & Hrow & _ & Hin).
  specialize (Hin Hbox).
  assert (Hp : zip_with mkPoint2D xs ys !! i = Some (mkPoint2D x y)).
  { by rewrite lookup_zip_with, Hx, Hy. }
  apply (entry_unique_hit _ vd Hlvd allow fl i _ d Hrun Hp).
  - rewrite (row_of_lookup vd i row Hrow). apply Hin. eauto.
  - done.
  - intros d' Hd' Hc'. rewrite (row_of_lookup vd i row Hrow) in Hd'.
    apply Hin in Hd' as (j' & Hj' & Hr'). eauto.
Qed.

Lemma lookup_unique_hit_witness :
  ∃ a fl,
    chipNameFromPupilCoordsLSST_run (H := Toy.camera) None
      (Array [5; 15]%float) (Array [5; 40]%float) true = (Some a, Ok fl) ∧
    outputNameList (flow_val fl) !! 0 = Some (PyStr "D0").
Proof.
  destruct (@lookup_unique_hit Toy.camera None [5; 15]%float [5; 40]%float true
              0 0 5%float 5%float Toy.D0 toy_cache_ok eq_refl eq_refl eq_refl)
    as (a & fl & Hrun & Hpt).
  exists a, fl. split; [exact Hrun|].
  vm_compute in Hrun. injection Hrun as <- _.
  apply Hpt.
  - reflexivity.
  - reflexivity.
  - eexists _, _, _. repeat split; reflexivity.
  - reflexivity.
  - intros j' d' Hd' _ Hc.
    destruct j' as [|[|[|[|[|[|[|j']]]]]]]; simpl in Hd';
      try (injection Hd' as <-); try discriminate Hd'; try discriminate Hc;
      reflexivity.
Defined.

(** ** The camera *)

Lemma lsst_camera_calls_set {C} (mapper_camera : nat → C) (n : nat) (c : C) (k : nat) :
  lsst_camera_calls mapper_camera n (mkStore (Some c) k)
  = (mkStore (Some c) k, replicate n c).
Proof. induction n as [|n IH]; [done|]. simpl. by rewrite IH. Qed.

(** X14: however often lsst_camera() is called, every call returns the
    object the first call returned, and at most one LsstSimMapper is built:
    none when the attribute was already set, one otherwise. *)
Theorem lsst_camera_memoised {C} (mapper_camera : nat → C) (n : nat)
    (s : camera_store C) :
  let first := (lsst_camera mapper_camera s).2 in
  let r := lsst_camera_calls mapper_camera (S n) s in
  r.2 = replicate (S n) first ∧
  _lsst_camera r.1 = Some first ∧
  mappers_built r.1 =
    mappers_built s + match _lsst_camera s with Some _ => 0 | None => 1 end.
Proof.
  destruct s as [[c|] k]; cbn [lsst_camera_calls lsst_camera _lsst_camera mappers_built];
    rewrite lsst_camera_calls_set; cbn [fst snd _lsst_camera mappers_built replicate].
  - split; [done|]. split; [done|]. lia.
  - split; [done|]. split; [done|]. lia.
Qed.
